(** * The jump-mat generator: fiducial encoder, coordinate transform and
      drawing passes

    A shallow embedding of [aruco.js] (the ArUco dictionary and
    [createArucoMarker]), of [config.js] ([MAT_CONFIG]) and of
    [matGenerator.js] (class [MatGenerator]), and of the methods of
    [main.js] (class [JumpMatViewer]) that build and rebuild the mat.

    JavaScript numbers are IEEE 754 binary64 values.  The drawing code is
    written once, over an interface [Number] of the arithmetic it uses, and
    read at two instances: [binary64] (Rocq's primitive floats, the
    arithmetic the program runs in) and [Q] (the same expressions in exact
    arithmetic).  A 2D canvas is the sequence of the context calls made on
    it. *)

From Stdlib Require Import PrimFloat.
From Stdlib Require FloatOps SpecFloat FloatAxioms Uint63Axioms DecimalString.
From Stdlib Require Finite.
From Stdlib Require Import ZArith QArith Qabs Qpower Qround Qfield.
From Stdlib Require Import List Bool Ascii String Lia Lqa Morphisms.
Import ListNotations.

Set Warnings "-inexact-float".

Local Open Scope Z_scope.

(** ** Numbers *)

(** The operations of JavaScript's Number type that the program uses.
    [lit] reads a numeric literal of the source, given as the fraction its
    decimal notation denotes. *)
Class Number (A : Type) := {
  lit : Q -> A;
  nadd : A -> A -> A;            (* x + y *)
  nsub : A -> A -> A;            (* x - y *)
  nmul : A -> A -> A;            (* x * y *)
  ndiv : A -> A -> A;            (* x / y *)
  nrem : A -> A -> A;            (* x % y *)
  nleb : A -> A -> bool;         (* x <= y *)
  nltb : A -> A -> bool;         (* x < y *)
  neqb : A -> A -> bool;         (* x === y *)
  truthy : A -> bool;            (* ToBoolean(x) *)
  Math_round : A -> Z;           (* Math.round(x), an integer-valued number *)
  integerPart : A -> Z           (* truncation toward zero (WebIDL IntegerPart) *)
}.

Declare Scope num_scope.
Delimit Scope num_scope with num.
Infix "+" := nadd : num_scope.
Infix "-" := nsub : num_scope.
Infix "*" := nmul : num_scope.
Infix "/" := ndiv : num_scope.
Infix "<=?" := nleb : num_scope.
Infix "<?" := nltb : num_scope.
Arguments lit {A _} q%_Q.

(** An integer-valued number of the program (a loop index, a canvas
    dimension) as a number. *)
Definition ofZ {A} `{Number A} (z : Z) : A := lit (inject_Z z).

(** *** binary64 *)

Module Binary64.
Import SpecFloat.

(** The binary64 value nearest to an integer: the processor's conversion
    for a magnitude below 2^62 = 4611686018427387904, the rounding of the
    specification beyond. *)
Definition of_Z (z : Z) : float :=
  match z with
  | Z0 => PrimFloat.zero
  | Zpos _ =>
      if Z.ltb z 4611686018427387904
      then PrimFloat.of_uint63 (Uint63Axioms.of_Z z)
      else FloatOps.SF2Prim
             (binary_normalize FloatOps.prec FloatOps.emax z 0 false)
  | Zneg p =>
      if Z.ltb (Zpos p) 4611686018427387904
      then PrimFloat.opp (PrimFloat.of_uint63 (Uint63Axioms.of_Z (Zpos p)))
      else FloatOps.SF2Prim
             (binary_normalize FloatOps.prec FloatOps.emax z 0 false)
  end.

(** A decimal literal [n/d]: numerator and denominator of every literal of
    the program are below 2^53, so the correctly rounded quotient is the
    binary64 value nearest to the decimal, which is what the JavaScript
    parser yields. *)
Definition of_Q (q : Q) : float :=
  PrimFloat.div (of_Z (Qnum q)) (of_Z (Zpos (Qden q))).

(** A finite value [(-1)^s * m * 2^e] as the pair of an integer numerator
    and a power-of-two denominator exponent. *)
Definition signed (s : bool) (m : positive) : Z := cond_Zopp s (Zpos m).

(** [x % y]: the remainder of the truncating division, computed exactly;
    it has the sign of the dividend. *)
Definition rem (x y : float) : float :=
  match FloatOps.Prim2SF x, FloatOps.Prim2SF y with
  | S754_nan, _ | _, S754_nan => PrimFloat.nan
  | S754_infinity _, _ => PrimFloat.nan
  | _, S754_zero _ => PrimFloat.nan
  | S754_zero _, _ => x
  | S754_finite _ _ _, S754_infinity _ => x
  | S754_finite sx mx ex, S754_finite _ my ey =>
      let e := Z.min ex ey in
      let r := Z.rem (Zpos mx * 2 ^ (ex - e)) (Zpos my * 2 ^ (ey - e)) in
      FloatOps.SF2Prim
        (binary_normalize FloatOps.prec FloatOps.emax (cond_Zopp sx r) e sx)
  end.

(** [Math.round(x)]: the integer nearest to [x], ties toward +infinity,
    that is [floor (x + 1/2)] computed exactly.  [Math.round] of NaN or of
    an infinity is not an integer; the program never rounds one and [0]
    stands for it here. *)
Definition round (x : float) : Z :=
  match FloatOps.Prim2SF x with
  | S754_finite s m e =>
      if 0 <=? e then signed s m * 2 ^ e
      else (2 * signed s m + 2 ^ (- e)) / 2 ^ (1 - e)
  | _ => 0
  end.

(** WebIDL's IntegerPart: the fraction is dropped; NaN and the infinities
    convert to 0. *)
Definition integerPart (x : float) : Z :=
  match FloatOps.Prim2SF x with
  | S754_finite s m e =>
      if 0 <=? e then signed s m * 2 ^ e
      else Z.quot (signed s m) (2 ^ (- e))
  | _ => 0
  end.

(** ToBoolean: every number is truthy but 0, -0 and NaN. *)
Definition truthy (x : float) : bool :=
  negb (PrimFloat.is_nan x || PrimFloat.is_zero x).
End Binary64.

#[export] Instance binary64 : Number PrimFloat.float := {
  lit := Binary64.of_Q;
  nadd := PrimFloat.add;
  nsub := PrimFloat.sub;
  nmul := PrimFloat.mul;
  ndiv := PrimFloat.div;
  nrem := Binary64.rem;
  nleb := PrimFloat.leb;
  nltb := PrimFloat.ltb;
  neqb := PrimFloat.eqb;
  truthy := Binary64.truthy;
  Math_round := Binary64.round;
  integerPart := Binary64.integerPart
}.

(** *** Exact arithmetic *)

Module Exact.
Definition trunc (x : Q) : Z := Z.quot (Qnum x) (Zpos (Qden x)).

(** [x % y] in exact arithmetic.  JavaScript yields NaN for [y = 0]; no
    remainder of the program has a zero divisor, and [0] stands for it. *)
Definition rem (x y : Q) : Q :=
  if Qeq_bool y 0 then 0%Q
  else (x - y * inject_Z (trunc (x / y)))%Q.

Definition round (x : Q) : Z := Qfloor (x + (1 # 2))%Q.
End Exact.

#[export] Instance exact : Number Q := {
  lit := fun q => q;
  nadd := Qplus;
  nsub := Qminus;
  nmul := Qmult;
  ndiv := Qdiv;
  nrem := Exact.rem;
  nleb := Qle_bool;
  nltb := fun x y => negb (Qle_bool y x);
  neqb := Qeq_bool;
  truthy := fun x => negb (Qeq_bool x 0);
  Math_round := Exact.round;
  integerPart := Exact.trunc
}.

(** ** Results of calls *)

(** A call returns, or throws, or (in the embedding only) stops because a
    loop of the source was given too little fuel. *)
Inductive Error := TypeError | InvalidStateError.

Inductive Result (X : Type) :=
| Ok (x : X)
| Throw (e : Error)
| OutOfFuel.
Arguments Ok {X} x.
Arguments Throw {X} e.
Arguments OutOfFuel {X}.

Definition bind {X Y} (r : Result X) (k : X -> Result Y) : Result Y :=
  match r with
  | Ok x => k x
  | Throw e => Throw e
  | OutOfFuel => OutOfFuel
  end.

Notation "x <- e ;; k" := (bind e (fun x => k))
  (at level 61, e at next level, right associativity).

(** [arr[k]] for an array and an integer-valued number [k]: [undefined]
    ([None]) unless [0 <= k < arr.length]. *)
Definition lookup {X} (arr : list X) (k : Z) : option X :=
  if k <? 0 then None else nth_error arr (Z.to_nat k).

(** [s.includes(sub)] *)
Definition includes (s sub : string) : bool :=
  match String.index 0 sub s with
  | Some _ => true
  | None => false
  end.

(** ** aruco.js: the dictionary *)

Definition ARUCO_DICT_4X4_50 : list (list (list Z)) :=
  [ (* ID 0 *)
    [ [0; 0; 0; 0];
      [0; 1; 0; 1];
      [1; 1; 0; 0];
      [0; 1; 1; 1] ];
    (* ID 1 *)
    [ [1; 0; 0; 1];
      [0; 1; 0; 1];
      [1; 0; 0; 0];
      [0; 1; 0; 1] ];
    (* ID 2 *)
    [ [1; 1; 0; 0];
      [0; 0; 1; 1];
      [1; 0; 0; 1];
      [1; 0; 1; 0] ];
    (* ID 3 *)
    [ [0; 1; 1; 0];
      [0; 0; 1; 1];
      [1; 1; 0; 1];
      [1; 0; 0; 0] ];
    (* ID 4 *)
    [ [0; 0; 1; 1];
      [1; 1; 0; 0];
      [0; 1; 1; 0];
      [1; 1; 0; 1] ];
    (* ID 5 *)
    [ [1; 0; 1; 0];
      [1; 1; 0; 0];
      [0; 0; 1; 0];
      [1; 1; 1; 1] ];
    (* ID 6 *)
    [ [1; 1; 1; 1];
      [0; 0; 0; 1];
      [0; 0; 0; 1];
      [0; 0; 0; 0] ];
    (* ID 7 *)
    [ [0; 1; 0; 1];
      [0; 0; 0; 1];
      [0; 1; 0; 1];
      [0; 0; 1; 0] ];
    (* ID 8 - for the 0m position *)
    [ [0; 0; 0; 1];
      [1; 0; 1; 0];
      [1; 1; 1; 0];
      [1; 0; 0; 1] ];
    (* ID 9 - for the 1m position *)
    [ [1; 0; 0; 0];
      [1; 0; 1; 0];
      [1; 0; 1; 0];
      [1; 0; 1; 1] ];
    (* ID 10 - for the 1.8m position *)
    [ [0; 1; 1; 1];
      [1; 1; 1; 0];
      [0; 0; 1; 1];
      [0; 1; 0; 0] ];
    (* ID 11 - for the 2.4m position *)
    [ [1; 1; 1; 0];
      [1; 1; 1; 0];
      [0; 1; 1; 1];
      [0; 0; 0; 0] ] ].

(** [pattern[row][col] === 1].  [pattern[row]] is an array for every row
    the encoder reads (each pattern of the table has four rows of four
    cells, [dictionary_shape] below), and a missing cell is [undefined],
    which is not [1]. *)
Definition bit (pattern : list (list Z)) (row col : Z) : bool :=
  match lookup pattern row with
  | Some r => match lookup r col with
              | Some v => v =? 1
              | None => false
              end
  | None => false
  end.

(** [ARUCO_POSITIONS]: the placement table the module exports. *)
Inductive Side := left | right.

Record ArucoPosition := {
  ap_id : Z;
  ap_position : Q;
  ap_side : Side;
  ap_label : string
}.

Definition ARUCO_POSITIONS : list ArucoPosition :=
  [ {| ap_id := 8; ap_position := 0; ap_side := left; ap_label := "0m" |};
    {| ap_id := 9; ap_position := 1.0; ap_side := left; ap_label := "1m" |};
    {| ap_id := 10; ap_position := 1.8; ap_side := left; ap_label := "1.8m" |};
    {| ap_id := 11; ap_position := 2.4; ap_side := left; ap_label := "2.4m" |};
    {| ap_id := 0; ap_position := 0; ap_side := right; ap_label := "0m" |};
    {| ap_id := 1; ap_position := 1.0; ap_side := right; ap_label := "1m" |};
    {| ap_id := 2; ap_position := 1.8; ap_side := right; ap_label := "1.8m" |};
    {| ap_id := 3; ap_position := 2.4; ap_side := right; ap_label := "2.4m" |} ].

(** The tick tiers of the precision zone, from the coarsest rule to the
    finest, and the selection made in [drawPrecisionZoneScales]:
    [if (cmValue % 100 === 0) .. else if (cmValue % 50 === 0) ..
     else if (cmValue % 10 === 0) .. else ..]. *)
Inductive Tier := Metre | HalfMetre | Decimetre | Centimetre.

Definition tierOf (cmValue : Z) : Tier :=
  if Z.rem cmValue 100 =? 0 then Metre
  else if Z.rem cmValue 50 =? 0 then HalfMetre
  else if Z.rem cmValue 10 =? 0 then Decimetre
  else Centimetre.

(** The tick height and line width of a tier, in metres. *)
Definition tierHeight (t : Tier) : Q :=
  match t with
  | Metre => 0.45
  | HalfMetre => 0.35
  | Decimetre => 0.25
  | Centimetre => 0.12
  end.

Definition tierLineWidth (t : Tier) : Q :=
  match t with
  | Metre => 0.003
  | HalfMetre => 0.0025
  | Decimetre => 0.002
  | Centimetre => 0.0012
  end.

(** The divisor of the rule a tier stands for. *)
Definition tierCadence (t : Tier) : Z :=
  match t with
  | Metre => 100
  | HalfMetre => 50
  | Decimetre => 10
  | Centimetre => 1
  end.

(** ** The 2D canvas *)

Section Program.
Context {A : Type} `{Number A}.
Local Open Scope num_scope.

(** The argument of [ctx.rotate]: the program only rotates by fractions
    of [Math.PI], kept symbolic ([PiTimes q] is [q * Math.PI]). *)
Inductive Angle := PiTimes (q : Q).

(** [ctx.font]: the program builds it from a weight, a pixel size and one
    of two family lists. *)
Inductive FontFamily :=
| PingFang        (* "PingFang SC", "Microsoft YaHei", sans-serif *)
| JetBrainsMono.  (* "JetBrains Mono", monospace *)

Record Font := {
  fontBold : bool;
  fontSizePx : A;
  fontFamily : FontFamily
}.

(** A canvas is its size and the context calls made on it since it was
    last sized, in order. *)
Inductive Call :=
| SetFillStyle (style : string)
| SetStrokeStyle (style : string)
| SetLineWidth (w : A)
| SetFont (f : Font)
| SetTextAlign (a : string)
| SetTextBaseline (b : string)
| SetImageSmoothingEnabled (b : bool)
| SetImageSmoothingQuality (q : string)
| FillRect (x y w h : A)
| StrokeRect (x y w h : A)
| BeginPath
| MoveTo (x y : A)
| LineTo (x y : A)
| Stroke
| Save
| Restore
| Translate (x y : A)
| Rotate (a : Angle)
| FillText (text : string) (x y : A)
| DrawImage (image : Canvas) (dx dy dw dh : A)
with Canvas :=
| mkCanvas (width height : Z) (calls : list Call).

Definition width (c : Canvas) : Z := let (w, _, _) := c in w.
Definition height (c : Canvas) : Z := let (_, h, _) := c in h.
Definition calls (c : Canvas) : list Call := let (_, _, cs) := c in cs.

(** [canvas.width = v] and [canvas.height = v]: the attribute is an
    [unsigned long] limited to non-negative numbers, so [v] loses its
    fraction and wraps modulo 2^32, and a value above 2^31 - 1 is
    replaced by the attribute's default. *)
Definition canvasDim (default : Z) (v : A) : Z :=
  let n := (integerPart v mod 2 ^ 32)%Z in
  if (n <=? 2147483647)%Z then n else default.

(** [document.createElement('canvas')] *)
Definition createCanvas : Canvas := mkCanvas 300 150 [].

(** Sizing a canvas clears it. *)
Definition setWidth (c : Canvas) (v : A) : Canvas :=
  mkCanvas (canvasDim 300 v) (height c) [].
Definition setHeight (c : Canvas) (v : A) : Canvas :=
  mkCanvas (width c) (canvasDim 150 v) [].

Definition call (c : Canvas) (cs : list Call) : Canvas :=
  mkCanvas (width c) (height c) (calls c ++ cs).

(** *** aruco.js: [createArucoMarker] *)

(** The calls of one data cell. *)
Definition drawCell (pattern : list (list Z)) (size borderSize : A)
    (row col : Z) : list Call :=
  let cellSize := size / lit 6 in
  [ SetFillStyle (if bit pattern row col then "#000000" else "#FFFFFF");
    FillRect (borderSize + cellSize * ofZ (col + 1))
             (borderSize + cellSize * ofZ (row + 1))
             cellSize
             cellSize ].

(** [createArucoMarker(id, size, borderSize)] (the defaults 128 and 16 of
    the last two parameters are the caller's to supply here).  Reading
    [pattern[row]] of an undefined pattern throws in the first turn of the
    loop. *)
Definition createArucoMarker (id : Z) (size borderSize : A) : Result Canvas :=
  let canvas := createCanvas in
  let totalSize := size + borderSize * lit 2 in
  let canvas := setWidth canvas totalSize in
  let canvas := setHeight canvas totalSize in
  let cellSize := size / lit 6 in
  let canvas := call canvas
    [ SetFillStyle "#FFFFFF";
      FillRect (lit 0) (lit 0) totalSize totalSize;
      SetFillStyle "#000000";
      FillRect borderSize borderSize size size;
      SetFillStyle "#FFFFFF";
      FillRect (borderSize + cellSize) (borderSize + cellSize)
               (size - cellSize * lit 2) (size - cellSize * lit 2) ] in
  match lookup ARUCO_DICT_4X4_50
          (Z.rem id (Z.of_nat (List.length ARUCO_DICT_4X4_50))) with
  | None => Throw TypeError
  | Some pattern =>
      Ok (call canvas
            (flat_map (fun row =>
               flat_map (fun col => drawCell pattern size borderSize row col)
                        [0; 1; 2; 3]%Z)
               [0; 1; 2; 3]%Z))
  end.

(** *** config.js: [MAT_CONFIG] (its numeric part) *)

Record Zone := { zoneStart : A; zoneEnd : A }.

Record Zones := {
  takeoff : Zone;
  flight : Zone;
  landing : Zone;
  extended : Zone
}.

Record Scales := {
  fineSpacing : A;
  mediumSpacing : A;
  majorSpacing : A
}.

Record ArucoConfig := {
  arucoSize : A;
  arucoBorderSize : A;
  arucoTotalSize : A;
  arucoMargin : A;
  arucoPositions : list A
}.

Record Config := {
  totalLength : A;
  totalWidth : A;
  zones : Zones;
  scales : Scales;
  aruco : ArucoConfig
}.

Definition MAT_CONFIG : Config :=
  {| totalLength := lit 3.0;
     totalWidth := lit 0.9;
     zones :=
       {| takeoff := {| zoneStart := lit (-0.3); zoneEnd := lit 0 |};
          flight := {| zoneStart := lit 0; zoneEnd := lit 1.4 |};
          landing := {| zoneStart := lit 1.4; zoneEnd := lit 2.8 |};
          extended := {| zoneStart := lit 2.8; zoneEnd := lit 3.0 |} |};
     scales :=
       {| fineSpacing := lit 0.01;
          mediumSpacing := lit 0.1;
          majorSpacing := lit 1.0 |};
     aruco :=
       {| arucoSize := lit 0.08;
          arucoBorderSize := lit 0.015;
          arucoTotalSize := lit 0.11;
          arucoMargin := lit 0.02;
          arucoPositions := [lit 0; lit 1.0; lit 1.8; lit 2.4] |} |}.

(** The [options] of the constructor: each key may be absent. *)
Record Options := {
  optTotalLength : option A;
  optTotalWidth : option A;
  optZones : option Zones;
  optScales : option Scales;
  optAruco : option ArucoConfig;
  optPixelsPerMeter : option A
}.

Definition noOptions : Options :=
  {| optTotalLength := None; optTotalWidth := None; optZones := None;
     optScales := None; optAruco := None; optPixelsPerMeter := None |}.

Definition orElse {X} (o : option X) (d : X) : X :=
  match o with Some x => x | None => d end.

(** *** matGenerator.js: class [MatGenerator] *)

Record Colors := {
  background : string;
  border : string;
  scaleYellow : string;
  scaleFine : string;
  textGold : string;
  textWhite : string;
  arucoWhite : string;
  arucoBlack : string
}.

Record MatGenerator := {
  config : Config;
  pixelsPerMeter : A;
  canvas : option Canvas;
  colors : Colors
}.

(** [new MatGenerator(options)]:
    [this.config = { ...MAT_CONFIG, ...options }] and
    [this.pixelsPerMeter = options.pixelsPerMeter || 1200]. *)
Definition new_MatGenerator (options : Options) : MatGenerator :=
  {| config :=
       {| totalLength := orElse (optTotalLength options) (totalLength MAT_CONFIG);
          totalWidth := orElse (optTotalWidth options) (totalWidth MAT_CONFIG);
          zones := orElse (optZones options) (zones MAT_CONFIG);
          scales := orElse (optScales options) (scales MAT_CONFIG);
          aruco := orElse (optAruco options) (aruco MAT_CONFIG) |};
     pixelsPerMeter :=
       match optPixelsPerMeter options with
       | Some p => if truthy p then p else lit 1200
       | None => lit 1200
       end;
     canvas := None;
     colors :=
       {| background := "#1a1a1a";
          border := "#c9a227";
          scaleYellow := "#c9a227";
          scaleFine := "#c9a227";
          textGold := "#c9a227";
          textWhite := "#ffffff";
          arucoWhite := "#ffffff";
          arucoBlack := "#000000" |} |}.

Definition withCanvas (this : MatGenerator) (c : Canvas) : MatGenerator :=
  {| config := config this;
     pixelsPerMeter := pixelsPerMeter this;
     canvas := Some c;
     colors := colors this |}.

Definition initCanvas (this : MatGenerator) : MatGenerator :=
  let width := (totalLength (config this) + lit 0.3) * pixelsPerMeter this in
  let height := totalWidth (config this) * pixelsPerMeter this in
  let canvas := createCanvas in
  let canvas := setWidth canvas width in
  let canvas := setHeight canvas height in
  withCanvas this
    (call canvas [ SetImageSmoothingEnabled true;
                   SetImageSmoothingQuality "high" ]).

Definition meterToPixel (this : MatGenerator) (meter : A) : A :=
  meter * pixelsPerMeter this.

Definition getX (this : MatGenerator) (position : A) : A :=
  meterToPixel this (position + lit 0.3).

(** A drawing method reads [this.canvas] and [this.ctx]; on a generator
    whose canvas is still [null] the first context access throws. *)
Definition draw (this : MatGenerator)
    (pass : Canvas -> Result (list Call)) : Result MatGenerator :=
  match canvas this with
  | None => Throw TypeError
  | Some c => cs <- pass c ;; Ok (withCanvas this (call c cs))
  end.

(** The successive values of the loop variable of
    [for (let pos = start; pos <= limit; pos += step)], whose body never
    assigns [pos].  [None]: more turns than [fuel]. *)
Fixpoint numRange (fuel : nat) (pos limit step : A) : option (list A) :=
  if pos <=? limit then
    match fuel with
    | O => None
    | S fuel' =>
        option_map (cons pos) (numRange fuel' (pos + step) limit step)
    end
  else Some [].

Definition forNum (fuel : nat) (start limit step : A)
    (body : A -> list Call) : Result (list Call) :=
  match numRange fuel start limit step with
  | Some l => Ok (flat_map body l)
  | None => OutOfFuel
  end.

(** [arr.forEach(f)] for a callback that may throw. *)
Fixpoint forEach {X} (arr : list X) (f : X -> Result (list Call))
    : Result (list Call) :=
  match arr with
  | [] => Ok []
  | x :: rest => cs <- f x ;; cs' <- forEach rest f ;; Ok (cs ++ cs')
  end.

(** The elements of an array with their indices. *)
Definition indexed {X} (arr : list X) : list (X * Z) :=
  combine arr (map Z.of_nat (seq 0 (List.length arr))).

(** Each drawing method [m] is [draw this (m_calls this)], where
    [m_calls this canvas] lists the context calls of its body in order. *)

(** [drawBackground]; [rand k] is the value of the [k]-th call of
    [Math.random()]. *)
Definition drawBackground_calls (rand : nat -> A) (this : MatGenerator)
    (canvas : Canvas) : Result (list Call) :=
  let width := ofZ (width canvas) in
  let height := ofZ (height canvas) in
  Ok ([ SetFillStyle (background (colors this));
        FillRect (lit 0) (lit 0) width height;
        SetFillStyle "rgba(0, 0, 0, 0.1)" ] ++
      flat_map (fun i =>
        let x := rand (3 * i)%nat * width in
        let y := rand (3 * i + 1)%nat * height in
        let size := rand (3 * i + 2)%nat * lit 2 + lit 0.5 in
        [ FillRect x y size size ])
        (seq 0 50)).

Definition drawBackground (rand : nat -> A) (this : MatGenerator)
    : Result MatGenerator :=
  draw this (drawBackground_calls rand this).

Definition drawBorder_calls (this : MatGenerator) (canvas : Canvas)
    : Result (list Call) :=
  let width := ofZ (width canvas) in
  let height := ofZ (height canvas) in
  let borderWidth := meterToPixel this (lit 0.008) in
  let innerOffset := meterToPixel this (lit 0.015) in
  Ok [ SetStrokeStyle (border (colors this));
       SetLineWidth borderWidth;
       StrokeRect (borderWidth / lit 2) (borderWidth / lit 2)
                  (width - borderWidth) (height - borderWidth);
       SetStrokeStyle "rgba(201, 162, 39, 0.3)";
       SetLineWidth (lit 1);
       StrokeRect innerOffset innerOffset
                  (width - innerOffset * lit 2)
                  (height - innerOffset * lit 2) ].

Definition drawBorder (this : MatGenerator) : Result MatGenerator :=
  draw this (drawBorder_calls this).

(** [ctx.drawImage(image, dx, dy, dw, dh)] with a canvas as its image: a
    canvas that is 0 pixels wide or high is not usable, and the call throws
    an [InvalidStateError]. *)
Definition drawImage (image : Canvas) (dx dy dw dh : A) : Result (list Call) :=
  if ((width image =? 0) || (height image =? 0))%Z
  then Throw InvalidStateError
  else Ok [ DrawImage image dx dy dw dh ].

(** The body of the [forEach] of [drawArucoMarkers] for one position and
    its index: the marker of the upper edge is made, given its quiet
    square and composited, then the marker of the lower edge.  A call that
    throws ends the pass and [generate] with it, and no surface is
    returned, so that the calls made before it are not kept. *)
Definition drawArucoPair (this : MatGenerator) (canvas : Canvas)
    (item : A * Z) : Result (list Call) :=
  let (pos, index) := item in
  let size := meterToPixel this (lit 0.08) in
  let quietZone := meterToPixel this (lit 0.015) in
  let totalSize := size + quietZone * lit 2 in
  let margin := meterToPixel this (lit 0.02) in
  let x := getX this pos in
  let leftId := index in
  let leftY := margin in
  leftMarker <- createArucoMarker leftId size (lit 0) ;;
  leftImage <- drawImage leftMarker (x - size / lit 2) (leftY + quietZone)
                 size size ;;
  let rightId := (index + 4)%Z in
  let rightY := ofZ (height canvas) - totalSize - margin in
  rightMarker <- createArucoMarker rightId size (lit 0) ;;
  rightImage <- drawImage rightMarker (x - size / lit 2) (rightY + quietZone)
                  size size ;;
  Ok ([ SetFillStyle (arucoWhite (colors this));
        FillRect (x - totalSize / lit 2) leftY totalSize totalSize ]
      ++ leftImage
      ++ [ SetFillStyle (arucoWhite (colors this));
           FillRect (x - totalSize / lit 2) rightY totalSize totalSize ]
      ++ rightImage).

Definition drawArucoMarkers_calls (this : MatGenerator) (canvas : Canvas)
    : Result (list Call) :=
  let arucoPositions := [lit 0; lit 1.0; lit 1.8; lit 2.4] in
  forEach (indexed arucoPositions) (drawArucoPair this canvas).

Definition drawArucoMarkers (this : MatGenerator) : Result MatGenerator :=
  draw this (drawArucoMarkers_calls this).

(** The line length, in metres, of the tick that the loop of
    [drawTakeoffZoneScales] draws at [pos]:
    [(pos * 10) % 5 === 0 ? 0.25 : 0.15]. *)
Definition takeoffTickLength (pos : A) : Q :=
  if neqb (nrem (pos * lit 10) (lit 5)) (lit 0) then 0.25 else 0.15.

(** A centred tick: set the line width, then stroke the segment. *)
Definition strokeTick (lineWidth x centerY height : A) : list Call :=
  [ SetLineWidth lineWidth;
    BeginPath;
    MoveTo x (centerY - height / lit 2);
    LineTo x (centerY + height / lit 2);
    Stroke ].

Definition takeoffTick (this : MatGenerator) (canvas : Canvas) (pos : A)
    : list Call :=
  let centerY := ofZ (height canvas) / lit 2 in
  let x := getX this pos in
  let height := meterToPixel this (lit (takeoffTickLength pos)) in
  strokeTick (meterToPixel this (lit 0.002)) x centerY height.

Definition drawTakeoffZoneScales_calls (fuel : nat) (this : MatGenerator)
    (canvas : Canvas) : Result (list Call) :=
  let startX := getX this (lit 0) in
  ticks <- forNum fuel (lit 0.1) (lit 1.4) (lit 0.1)
             (takeoffTick this canvas) ;;
  Ok ([ SetStrokeStyle (scaleYellow (colors this));
        SetFillStyle (textGold (colors this));
        SetLineWidth (meterToPixel this (lit 0.004));
        BeginPath;
        MoveTo startX (lit 0);
        LineTo startX (ofZ (height canvas));
        Stroke ] ++ ticks).

Definition drawTakeoffZoneScales (fuel : nat) (this : MatGenerator)
    : Result MatGenerator :=
  draw this (drawTakeoffZoneScales_calls fuel this).

(** The tick of the precision loop at [pos]. *)
Definition precisionTick (this : MatGenerator) (canvas : Canvas) (pos : A)
    : list Call :=
  let centerY := ofZ (height canvas) / lit 2 in
  let x := getX this pos in
  let cmValue := Math_round (pos * lit 100) in
  let height := meterToPixel this (lit (tierHeight (tierOf cmValue))) in
  let lineWidth := meterToPixel this (lit (tierLineWidth (tierOf cmValue))) in
  strokeTick lineWidth x centerY height.

Definition extensionTick (this : MatGenerator) (canvas : Canvas) (pos : A)
    : list Call :=
  let centerY := ofZ (height canvas) / lit 2 in
  let x := getX this pos in
  let height := meterToPixel this (lit 0.2) in
  strokeTick (meterToPixel this (lit 0.002)) x centerY height.

Definition drawPrecisionZoneScales_calls (fuel : nat) (this : MatGenerator)
    (canvas : Canvas) : Result (list Call) :=
  let startPos := lit 1.4 in
  let endPos := lit 2.8 in
  fine <- forNum fuel startPos endPos (lit 0.01)
            (precisionTick this canvas) ;;
  ext <- forNum fuel (lit 2.9) (lit 3.0) (lit 0.1)
           (extensionTick this canvas) ;;
  Ok ([ SetStrokeStyle (scaleFine (colors this)) ] ++ fine ++ ext).

Definition drawPrecisionZoneScales (fuel : nat) (this : MatGenerator)
    : Result MatGenerator :=
  draw this (drawPrecisionZoneScales_calls fuel this).

Definition keyLabels : list (Q * string) :=
  [ (0%Q, "0"%string); (0.5%Q, "500mm"%string); (1.0%Q, "1000mm"%string);
    (1.5%Q, "1.5m"%string); (1.6%Q, "1.6m"%string); (1.7%Q, "1.7m"%string);
    (1.8%Q, "1.8m"%string); (1.9%Q, "1.9m"%string); (2.0%Q, "2.0m"%string);
    (2.1%Q, "2.1m"%string); (2.2%Q, "2.2m"%string); (2.3%Q, "2.3m"%string);
    (2.4%Q, "2.4m"%string); (2.5%Q, "2.5m"%string); (2.6%Q, "2.6m"%string);
    (2.7%Q, "2.7m"%string); (2.8%Q, "2.8m"%string); (2.9%Q, "2.9m"%string);
    (3.0%Q, "3.0m"%string) ].

Definition drawSimplifiedLabels_calls (this : MatGenerator) (canvas : Canvas)
    : Result (list Call) :=
  let height := ofZ (height canvas) in
  let mono bold size :=
    {| fontBold := bold; fontSizePx := meterToPixel this size;
       fontFamily := JetBrainsMono |} in
  Ok ([ SetFillStyle (textGold (colors this));
        SetTextAlign "center";
        SetTextBaseline "middle";
        Save;
        Translate (getX this (lit (-0.08))) (height / lit 2);
        Rotate (PiTimes (1 # 2));
        SetFont {| fontBold := true;
                   fontSizePx := meterToPixel this (lit 0.035);
                   fontFamily := PingFang |};
        FillText "0mm (起跳线)" (lit 0) (lit 0);
        Restore;
        Save;
        Translate (getX this (lit 1.35)) (height / lit 2);
        Rotate (PiTimes (1 # 2));
        SetFont {| fontBold := true;
                   fontSizePx := meterToPixel this (lit 0.03);
                   fontFamily := PingFang |};
        FillText "1.4m (精密区起点)" (lit 0) (lit 0);
        Restore;
        SetFont (mono false (lit 0.016));
        SetTextBaseline "top" ] ++
      flat_map (fun item : Q * string =>
        let (pos, label) := item in
        [ Save;
          Translate (getX this (lit pos))
                    (height - meterToPixel this (lit 0.04));
          Rotate (PiTimes (- 1 # 4));
          SetFont (if (lit 1.5 <=? lit pos) && includes label "m"
                   then mono true (lit 0.018)
                   else mono false (lit 0.014));
          FillText label (lit 0) (lit 0);
          Restore ])
        keyLabels).

Definition drawSimplifiedLabels (this : MatGenerator) : Result MatGenerator :=
  draw this (drawSimplifiedLabels_calls this).

(** [generate()]: the value returned is [this.canvas] of the resulting
    generator. *)
Definition generate (fuel : nat) (rand : nat -> A) (this : MatGenerator)
    : Result MatGenerator :=
  let this := initCanvas this in
  this <- drawBackground rand this ;;
  this <- drawTakeoffZoneScales fuel this ;;
  this <- drawPrecisionZoneScales fuel this ;;
  this <- drawSimplifiedLabels this ;;
  this <- drawBorder this ;;
  this <- drawArucoMarkers this ;;
  Ok this.

(** *** Reading a surface *)

(** A pixel of a canvas as far as its calls determine it: never painted,
    painted solid in one colour, or a blend that this reading does not
    resolve (the edge of a rectangle crosses the pixel and is
    anti-aliased, or the fill style is translucent, or an image was
    composited over the pixel).  The reading errs to the side of [Blend]:
    a pixel reads as solid only when a rectangle in an opaque colour
    covers all of it. *)
Inductive Pixel := Untouched | Solid (colour : string) | Blend.

Inductive Cover := Whole | Part | Apart.

(** A number is finite when it is neither NaN nor an infinity: [v - v] is
    0 for the finite numbers only. *)
Definition finite (v : A) : bool := neqb (v - v) (lit 0).

(** How the extent of a rectangle along one axis, from [x0] over [w] (to
    the left when [w] is negative), lies over the pixels of index [i],
    which reach from [i] to [i + 1].  The canvas ignores a rectangle with
    a coordinate that is not finite and paints nothing for one without
    area: such an extent is apart from every pixel. *)
Definition spanCover (x0 w : A) (i : Z) : Cover :=
  if finite x0 && finite w && negb (neqb w (lit 0)) then
    let lo := if lit 0 <=? w then x0 else x0 + w in
    let hi := if lit 0 <=? w then x0 + w else x0 in
    if (lo <=? ofZ i) && (ofZ (i + 1) <=? hi) then Whole
    else if (hi <=? ofZ i) || (ofZ (i + 1) <=? lo) then Apart
    else Part
  else Apart.

Definition rectCover (x y w h : A) (i j : Z) : Cover :=
  match spanCover x w i, spanCover y h j with
  | Whole, Whole => Whole
  | Apart, _ | _, Apart => Apart
  | _, _ => Part
  end.

(** The fill styles of the form [#rrggbb] are opaque. *)
Definition opaque (style : string) : bool :=
  match style with
  | String "#"%char rest => (String.length rest =? 6)%nat
  | _ => false
  end.

(** What the [fillRect] and [drawImage] calls of a call sequence leave in
    the pixel [(i, j)] under the identity transform: a rectangle that
    covers the pixel wholly, filled in an opaque style, makes it solid; a
    rectangle or image apart from the pixel leaves it as it is. *)
Fixpoint paintPixel (cs : list Call) (style : string) (p : Pixel) (i j : Z)
    : Pixel :=
  match cs with
  | [] => p
  | SetFillStyle s :: rest => paintPixel rest s p i j
  | FillRect x y w h :: rest =>
      paintPixel rest style
        match rectCover x y w h i j with
        | Whole => if opaque style then Solid style else Blend
        | Part => Blend
        | Apart => p
        end
        i j
  | DrawImage _ dx dy dw dh :: rest =>
      paintPixel rest style
        match rectCover dx dy dw dh i j with
        | Apart => p
        | _ => Blend
        end
        i j
  | _ :: rest => paintPixel rest style p i j
  end.

(** The calls that fill rectangles and do nothing else. *)
Definition isFill (c : Call) : bool :=
  match c with
  | SetFillStyle _ | FillRect _ _ _ _ => true
  | _ => false
  end.

(** The calls among which [paintPixel] is the whole picture: no stroke, no
    text, no transform, no saved state. *)
Definition legible (c : Call) : bool :=
  match c with
  | StrokeRect _ _ _ _ | BeginPath | MoveTo _ _ | LineTo _ _ | Stroke
  | Save | Restore | Translate _ _ | Rotate _ | FillText _ _ _ => false
  | _ => true
  end.

(** The pixel [(i, j)] of a canvas; a fresh context fills in black. *)
Definition pixelAt (c : Canvas) (i j : Z) : Pixel :=
  if ((0 <=? i) && (i <? width c) && (0 <=? j) && (j <? height c))%Z
  then if forallb legible (calls c)
       then paintPixel (calls c) "#000000" Untouched i j
       else Blend
  else Untouched.

(** Reading a marker back: the cell [(row, col)] of the 6x6 grid of a
    patch is dark when the pixel at its centre is, and the identifier of a
    patch is the index of its 4x4 data matrix in the dictionary. *)
Definition readBit (patch : Canvas) (row col : Z) : Z :=
  let x := ofZ (width patch) * lit ((2 * col + 3) # 12) in
  let y := ofZ (height patch) * lit ((2 * row + 3) # 12) in
  match pixelAt patch (integerPart x) (integerPart y) with
  | Solid "#000000"%string => 1
  | _ => 0
  end.

Definition readPattern (patch : Canvas) : list (list Z) :=
  map (fun row => map (fun col => readBit patch row col) [0; 1; 2; 3]%Z)
      [0; 1; 2; 3]%Z.

Fixpoint indexOf (p : list (list Z)) (dict : list (list (list Z))) (i : Z)
    : option Z :=
  match dict with
  | [] => None
  | q :: rest =>
      if list_eq_dec (list_eq_dec Z.eq_dec) p q then Some i
      else indexOf p rest (i + 1)%Z
  end.

Definition decodeMarker (patch : Canvas) : option Z :=
  indexOf (readPattern patch) ARUCO_DICT_4X4_50 0.

(** The markers composited on a surface: for each [drawImage], the
    identifier read from the image and where it was put. *)
Definition placements (cs : list Call) : list (option Z * A * A) :=
  flat_map (fun c =>
    match c with
    | DrawImage image dx dy _ _ => [(decodeMarker image, dx, dy)]
    | _ => []
    end) cs.

End Program.

Arguments Call : clear implicits.
Arguments Canvas : clear implicits.
Arguments MatGenerator : clear implicits.
Arguments Options : clear implicits.
Arguments Config : clear implicits.

(** [ARUCO_DICT_4X4_50.length] *)
Definition dictionarySize : Z := Z.of_nat (List.length ARUCO_DICT_4X4_50).

(** ** The properties the description states, in its words *)

(** The parts of a marker patch of core size [S] and quiet border [B]: the
    quiet ring of width [B] around the core, the dark ring that is the
    outermost sixth of the core on each side, and the 4x4 grid of cells of
    width [S/6] inside it. *)
Inductive Region :=
| QuietRing
| BorderRing
| DataCell (row col : Z).

Definition gridIndex (S B x : Q) : Z := Qfloor ((x - B) / (S / 6)).

Definition regionOf (S B x y : Q) : Region :=
  let i := gridIndex S B x in
  let j := gridIndex S B y in
  if (i <? 0) || (5 <? i) || (j <? 0) || (5 <? j) then QuietRing
  else if (i =? 0) || (i =? 5) || (j =? 0) || (j =? 5) then BorderRing
  else DataCell (j - 1) (i - 1).

Definition regionColour (pattern : list (list Z)) (r : Region) : string :=
  match r with
  | QuietRing => "#FFFFFF"
  | BorderRing => "#000000"
  | DataCell row col => if bit pattern row col then "#000000" else "#FFFFFF"
  end.

(** The surface size the description gives:
    [round((totalLength + 0.3) * pixelsPerMeter)] by
    [round(totalWidth * pixelsPerMeter)]. *)
Definition roundedSize {A} `{Number A} (this : MatGenerator A) : Z * Z :=
  (Math_round (nmul (nadd (totalLength (config this)) (lit 0.3))
                    (pixelsPerMeter this)),
   Math_round (nmul (totalWidth (config this)) (pixelsPerMeter this))).

Definition surfaceSize {A} (this : MatGenerator A) : option (Z * Z) :=
  option_map (fun c => (width c, height c)) (canvas this).

(** A malformed configuration, as the description lists it: zone boundaries
    that do not increase from each zone to the next, or a spacing or the
    scale that is not positive. *)
Definition monotonicZones {A} `{Number A} (z : Zones) : bool :=
  nltb (zoneStart (takeoff z)) (zoneEnd (takeoff z))
  && nleb (zoneEnd (takeoff z)) (zoneStart (flight z))
  && nltb (zoneStart (flight z)) (zoneEnd (flight z))
  && nleb (zoneEnd (flight z)) (zoneStart (landing z))
  && nltb (zoneStart (landing z)) (zoneEnd (landing z))
  && nleb (zoneEnd (landing z)) (zoneStart (extended z))
  && nltb (zoneStart (extended z)) (zoneEnd (extended z)).

Definition positiveSpacings {A} `{Number A} (s : Scales) : bool :=
  nltb (lit 0) (fineSpacing s) && nltb (lit 0) (mediumSpacing s)
  && nltb (lit 0) (majorSpacing s).

Definition malformed {A} `{Number A} (this : MatGenerator A) : bool :=
  negb (monotonicZones (zones (config this))
        && positiveSpacings (scales (config this))
        && nltb (lit 0) (pixelsPerMeter this)).

(** The positions at which the program's three tick loops run, in
    binary64: the values that [pos] takes when [0.1], [0.01] and [0.1] are
    added repeatedly with rounding. *)
Definition takeoffPositions : list float :=
  [ 0.1; 0.2; 0.30000000000000004; 0.4; 0.5; 0.6; 0.7; 0.7999999999999999;
    0.8999999999999999; 0.9999999999999999; 1.0999999999999999; 1.2;
    1.3 ]%float.

Definition precisionPositions : list float :=
  Eval vm_compute in
    orElse (numRange 141 (lit 1.4) (lit 2.8) (lit 0.01)) [].

Definition extensionPositions : list float := [ 2.9; 3.0 ]%float.

(** The centimetre value the precision loop computes at a position. *)
Definition cmValueAt {A} `{Number A} (pos : A) : Z :=
  Math_round (nmul pos (lit 100)).

(** The surface that [initCanvas] leaves in [this.canvas]. *)
Definition initialCanvas {A} `{Number A} (this : MatGenerator A) : Canvas A :=
  orElse (canvas (initCanvas this)) createCanvas.

(** The surface size that assigning the unrounded products to
    [canvas.width] and [canvas.height] gives. *)
Definition truncatedSize {A} `{Number A} (this : MatGenerator A) : Z * Z :=
  (canvasDim 300 (nmul (nadd (totalLength (config this)) (lit 0.3))
                       (pixelsPerMeter this)),
   canvasDim 150 (nmul (totalWidth (config this)) (pixelsPerMeter this))).

(** The calls that composite an image. *)
Definition drawsImage {A} (c : Call A) : bool :=
  match c with
  | DrawImage _ _ _ _ _ => true
  | _ => false
  end.

(** The generators of the scenarios below: the reference configuration at
    1200 and at 1202 pixels per metre, and one whose zones run backwards and
    whose spacings are not positive. *)
Definition withPixelsPerMeter (p : float) : Options float :=
  {| optTotalLength := None; optTotalWidth := None; optZones := None;
     optScales := None; optAruco := None; optPixelsPerMeter := Some p |}.

Definition reference1200 : MatGenerator float :=
  new_MatGenerator (withPixelsPerMeter 1200%float).

Definition reference1202 : MatGenerator float :=
  new_MatGenerator (withPixelsPerMeter 1202%float).

Definition backwardZones : Zones :=
  {| takeoff := {| zoneStart := 0%float; zoneEnd := (-0.3)%float |};
     flight := {| zoneStart := 1.4%float; zoneEnd := 0%float |};
     landing := {| zoneStart := 2.8%float; zoneEnd := 1.4%float |};
     extended := {| zoneStart := 3.0%float; zoneEnd := 2.8%float |} |}.

Definition malformedOptions : Options float :=
  {| optTotalLength := None; optTotalWidth := None;
     optZones := Some backwardZones;
     optScales := Some {| fineSpacing := (-0.01)%float;
                          mediumSpacing := 0%float;
                          majorSpacing := (-1)%float |};
     optAruco := None; optPixelsPerMeter := Some 1200%float |}.

(** Two generators that differ at most in the parts of the configuration
    that describe the layout (zones, scales, marker table). *)
Definition sameGeometry {A} (this this' : MatGenerator A) : Prop :=
  totalLength (config this') = totalLength (config this) /\
  totalWidth (config this') = totalWidth (config this) /\
  pixelsPerMeter this' = pixelsPerMeter this /\
  colors this' = colors this.

(** The value of a binary64 number, and what one rounding may do to it.
    [SFvalue] reads a finite number of the specification of binary64 as
    the rational it denotes; [near v vz] says that [vz] is [v] up to one
    rounding to nearest: within [2^-53] of it in proportion, or within
    half of the smallest subnormal. *)
Module Rounding.
Import SpecFloat.

(** The power of two of an integer exponent. *)
Definition pow2 (e : Z) : Q := (2 ^ e)%Q.

Definition SFvalue (x : spec_float) : option Q :=
  match x with
  | S754_zero _ => Some 0%Q
  | S754_finite s m e => Some (inject_Z (cond_Zopp s (Zpos m)) * pow2 e)%Q
  | _ => None
  end.

(** The value of a binary64 number, when it is finite. *)
Definition valueOf (x : float) : option Q := SFvalue (FloatOps.Prim2SF x).

(** [vz] is the exact value [v] up to one rounding of binary64. *)
Definition near (v vz : Q) : Prop :=
  (Qabs (vz - v) <= Qabs v * pow2 (-53) + pow2 (-1075))%Q.

Definition b2z (b : bool) : Z := if b then 1 else 0.

(** [mrs] is what is left of [M] after [k] shifts to the right. *)
Definition shifted (M k : Z) (mrs : shr_record) : Prop :=
  0 <= shr_m mrs /\
  exists u, 0 <= u < 2 ^ k /\
    2 * M = (2 * shr_m mrs + b2z (shr_r mrs)) * 2 ^ k + u /\
    (shr_s mrs = true <-> u <> 0).
End Rounding.

(** The integers from [a], [n] of them. *)
Definition zrange (a : Z) (n : nat) : list Z := map (fun k => a + Z.of_nat k) (seq 0 n).

(** The size of the canvas that the marker pass has [createArucoMarker]
    make at the generator's scale, and whether [drawImage] can use it. *)
Definition markerCanvasSize {A} `{Number A} (this : MatGenerator A) : Z * Z :=
  let size := meterToPixel this (lit 0.08) in
  let totalSize := nadd size (nmul (lit 0) (lit 2)) in
  (canvasDim 300 totalSize, canvasDim 150 totalSize).

Definition markersUsable {A} `{Number A} (this : MatGenerator A) : bool :=
  negb ((fst (markerCanvasSize this) =? 0) || (snd (markerCanvasSize this) =? 0)).

(** The seven extents along one axis of the rectangles that
    [createArucoMarker] fills: the patch, the core, the inside of the
    border ring, and the four columns (or rows) of cells. *)
Definition patchSpans {A} `{Number A} (size borderSize : A) : list (A * A) :=
  let cellSize := ndiv size (lit 6) in
  [ (lit 0, nadd size (nmul borderSize (lit 2)));
    (borderSize, size);
    (nadd borderSize cellSize, nsub size (nmul cellSize (lit 2)));
    (nadd borderSize (nmul cellSize (ofZ (0 + 1))), cellSize);
    (nadd borderSize (nmul cellSize (ofZ (1 + 1))), cellSize);
    (nadd borderSize (nmul cellSize (ofZ (2 + 1))), cellSize);
    (nadd borderSize (nmul cellSize (ofZ (3 + 1))), cellSize) ].

(** How these extents lie over a pixel whose centre has the grid index
    [g], when every edge falls between two pixels. *)
Definition expectedCovers (g : Z) : list Cover :=
  [ Whole;
    if (0 <=? g) && (g <=? 5) then Whole else Apart;
    if (1 <=? g) && (g <=? 4) then Whole else Apart;
    if g =? 1 then Whole else Apart;
    if g =? 2 then Whole else Apart;
    if g =? 3 then Whole else Apart;
    if g =? 4 then Whole else Apart ].

Definition sameCover (a b : Cover) : bool :=
  match a, b with
  | Whole, Whole | Part, Part | Apart, Apart => true
  | _, _ => false
  end.

Fixpoint sameCovers (l l' : list Cover) : bool :=
  match l, l' with
  | [], [] => true
  | a :: l, b :: l' => sameCover a b && sameCovers l l'
  | _, _ => false
  end.

(** In binary64, at the core size [6 * c] and the border [b]: the canvas
    of the patch is [6 * c + 2 * b] pixels wide and high, and the seven
    extents lie over each of its pixel columns as the grid index of the
    column's centre says. *)
Definition patchAligned (c b : Z) : bool :=
  let size : float := ofZ (6 * c) in
  let borderSize : float := ofZ b in
  let side := 6 * c + 2 * b in
  (canvasDim 300 (nadd size (nmul borderSize (lit 2))) =? side)
  && (canvasDim 150 (nadd size (nmul borderSize (lit 2))) =? side)
  && forallb (fun i =>
       sameCovers
         (map (fun span => spanCover (fst span) (snd span) i)
              (patchSpans size borderSize))
         (expectedCovers
            (gridIndex (inject_Z (6 * c)) (inject_Z b)
                       (inject_Z i + (1 # 2)))))
       (zrange 0 (Z.to_nat side)).

(** In binary64, at the whole core size [s] and without quiet border, the
    patches of the twelve identifiers are [s] pixels wide and high and
    are read back as their identifiers. *)
Definition readsBack (s : Z) : bool :=
  forallb (fun id =>
    match createArucoMarker (A := float) id (ofZ s) (lit 0) with
    | Ok patch =>
        (width patch =? s) && (height patch =? s)
        && match decodeMarker patch with
           | Some id' => id' =? id
           | None => false
           end
    | _ => false
    end) (zrange 0 12).

(** ** The rest of the program *)

(** *** aruco.js: the dictionary as a code *)

(** A pattern turned by a quarter: the bit at [(row, col)] is the bit that
    was at [(3 - col, row)]. *)
Definition rotate90 (pattern : list (list Z)) : list (list Z) :=
  map (fun row => map (fun col => if bit pattern (3 - col) row then 1 else 0)
                      [0; 1; 2; 3]) [0; 1; 2; 3].

(** The number of cells in which two patterns differ. *)
Definition hamming (p q : list (list Z)) : nat :=
  List.length
    (filter (fun rc => negb (Bool.eqb (bit p (fst rc) (snd rc))
                                      (bit q (fst rc) (snd rc))))
            (list_prod [0; 1; 2; 3] [0; 1; 2; 3])).

Definition samePattern (p q : list (list Z)) : bool :=
  if list_eq_dec (list_eq_dec Z.eq_dec) p q then true else false.

(** [q] differs from [p] in at least four cells unless it is [p], and is
    none of the three turns of [p]. *)
Definition patternSeparated (p q : list (list Z)) : bool :=
  (samePattern p q || (4 <=? hamming p q)%nat)
  && negb (samePattern (rotate90 p) q)
  && negb (samePattern (rotate90 (rotate90 p)) q)
  && negb (samePattern (rotate90 (rotate90 (rotate90 p))) q).

(** [i + 'mm'] for an integer-valued number [i]. *)
Definition mmLabel (i : Z) : string :=
  (DecimalString.NilZero.string_of_int (Z.to_int i) ++ "mm")%string.

(** *** matGenerator.js: what the passes draw *)

Section Drawn.
Context {A : Type} `{Number A}.
Local Open Scope num_scope.

(** *** matGenerator.js: [drawLabels] *)

Definition sparseLabels : list (Q * string) :=
  [ (0%Q, "1cm/10cm"%string); (0.2%Q, "200mm"%string);
    (0.4%Q, "400mm"%string); (0.6%Q, "600mm"%string);
    (0.8%Q, "800mm"%string); (1.0%Q, "1000mm"%string) ].

(** [precisionLabels]: the array that the loop
    [for (let i = 1200; i <= 3000; i += 100)] fills with
    [{ pos: i / 1000, label: i + 'mm' }]. *)
Definition precisionLabels : list (A * string) :=
  map (fun k => let i := (1200 + 100 * Z.of_nat k)%Z in
                (ofZ i / lit 1000, mmLabel i))
      (seq 0 19).

(** [drawLabels], the labelling method that [generate] does not call. *)
Definition drawLabels_calls (this : MatGenerator A) (canvas : Canvas A)
    : Result (list (Call A)) :=
  let height := ofZ (height canvas) in
  let mono size :=
    {| fontBold := false; fontSizePx := meterToPixel this size;
       fontFamily := JetBrainsMono |} in
  Ok ([ SetFillStyle (textGold (colors this));
        SetTextAlign "center";
        Save;
        Translate (getX this (lit 0)) (height - meterToPixel this (lit 0.08));
        Rotate (PiTimes (- 1 # 2));
        SetFont {| fontBold := true;
                   fontSizePx := meterToPixel this (lit 0.025);
                   fontFamily := PingFang |};
        FillText "0mm (起跳线)" (lit 0) (lit 0);
        Restore;
        Save;
        Translate (getX this (lit 1.2)) (height - meterToPixel this (lit 0.08));
        Rotate (PiTimes (- 1 # 2));
        SetFont {| fontBold := true;
                   fontSizePx := meterToPixel this (lit 0.022);
                   fontFamily := PingFang |};
        FillText "1200mm (精密区起点)" (lit 0) (lit 0);
        Restore;
        SetFont (mono (lit 0.018));
        SetTextBaseline "top" ] ++
      flat_map (fun item : Q * string =>
        let (pos, label) := item in
        [ Save;
          Translate (getX this (lit pos))
                    (height - meterToPixel this (lit 0.035));
          Rotate (PiTimes (- 1 # 4));
          FillText label (lit 0) (lit 0);
          Restore ])
        sparseLabels ++
      flat_map (fun item : A * string =>
        let (pos, label) := item in
        [ Save;
          Translate (getX this pos)
                    (height - meterToPixel this (lit 0.035));
          Rotate (PiTimes (- 1 # 4));
          SetFont (mono (lit 0.014));
          FillText label (lit 0) (lit 0);
          Restore ])
        precisionLabels).

Definition drawLabels (this : MatGenerator A) : Result (MatGenerator A) :=
  draw this (drawLabels_calls this).

(** *** The transform in force *)

(** The part of the context state that [save], [restore], [translate] and
    [rotate] act on: the transforms applied since the identity, and the
    stack of saved ones.  [restore] on an empty stack does nothing. *)
Inductive Xform :=
| XTranslate (x y : A)
| XRotate (a : Angle).

(** For each call that places geometry or paints, the transform in force
    when it is made, and the state left at the end. *)
Fixpoint transforms (cs : list (Call A)) (cur : list Xform)
    (stack : list (list Xform))
    : list (Call A * list Xform) * (list Xform * list (list Xform)) :=
  match cs with
  | [] => ([], (cur, stack))
  | c :: rest =>
      match c with
      | Save => transforms rest cur (cur :: stack)
      | Restore =>
          match stack with
          | saved :: stack' => transforms rest saved stack'
          | [] => transforms rest cur []
          end
      | Translate x y => transforms rest (cur ++ [XTranslate x y]) stack
      | Rotate a => transforms rest (cur ++ [XRotate a]) stack
      | FillRect _ _ _ _ | StrokeRect _ _ _ _ | MoveTo _ _ | LineTo _ _
      | Stroke | FillText _ _ _ | DrawImage _ _ _ _ _ =>
          let (log, final) := transforms rest cur stack in
          ((c, cur) :: log, final)
      | _ => transforms rest cur stack
      end
  end.

(** A label is written under one translation followed by one rotation;
    everything else is drawn under the identity. *)
Definition scoped (entry : Call A * list Xform) : Prop :=
  match entry with
  | (FillText _ _ _, t) => exists x y a, t = [XTranslate x y; XRotate a]
  | (_, t) => t = []
  end.

Definition wellScoped (cs : list (Call A)) : Prop :=
  Forall scoped (fst (transforms cs [] [])) /\
  snd (transforms cs [] []) = ([], []).

(** The calls that neither touch the transform nor write text. *)
Definition plain (c : Call A) : bool :=
  match c with
  | Save | Restore | Translate _ _ | Rotate _ | FillText _ _ _ => false
  | _ => true
  end.

(** The texts that a call sequence writes, in order. *)
Definition texts (cs : list (Call A)) : list string :=
  flat_map (fun c => match c with FillText t _ _ => [t] | _ => [] end) cs.

(** *** matGenerator.js: texture, mesh and export *)

(** The Three.js objects that the generator builds, as the arguments of
    their constructors and the properties the program assigns. *)
Inductive ColorSpace := SRGBColorSpace.
Inductive TextureFilter := LinearMipmapLinearFilter | LinearFilter.
Inductive RenderSide := DoubleSide.

Record CanvasTexture := {
  image : option (Canvas A);
  colorSpace : ColorSpace;
  anisotropy : Z;
  minFilter : TextureFilter;
  magFilter : TextureFilter
}.

Record PlaneGeometry := { planeWidth : A; planeHeight : A }.

Record MeshStandardMaterial := {
  textureMap : CanvasTexture;
  roughness : A;
  metalness : A;
  side : RenderSide
}.

Record Mesh := {
  geometry : PlaneGeometry;
  material : MeshStandardMaterial;
  rotationX : Angle;
  positionX : A;
  positionY : A;
  positionZ : A
}.

(** [if (!this.canvas) { this.generate(); }] *)
Definition ensureCanvas (fuel : nat) (rand : nat -> A) (this : MatGenerator A)
    : Result (MatGenerator A) :=
  match canvas this with
  | None => generate fuel rand this
  | Some _ => Ok this
  end.

(** [createTexture()]: the generator afterwards, and the texture returned,
    which is also its [texture] property. *)
Definition createTexture (fuel : nat) (rand : nat -> A) (this : MatGenerator A)
    : Result (MatGenerator A * CanvasTexture) :=
  this <- ensureCanvas fuel rand this ;;
  Ok (this,
      {| image := canvas this;
         colorSpace := SRGBColorSpace;
         anisotropy := 16;
         minFilter := LinearMipmapLinearFilter;
         magFilter := LinearFilter |}).

(** [createMesh()] *)
Definition createMesh (fuel : nat) (rand : nat -> A) (this : MatGenerator A)
    : Result (MatGenerator A * Mesh) :=
  r <- createTexture fuel rand this ;;
  let (this, texture) := r in
  Ok (this,
      {| geometry :=
           {| planeWidth := totalLength (config this) + lit 0.3;
              planeHeight := totalWidth (config this) |};
         material :=
           {| textureMap := texture;
              roughness := lit 0.92;
              metalness := lit 0.0;
              side := DoubleSide |};
         rotationX := PiTimes (- 1 # 2);
         positionX :=
           (totalLength (config this) + lit 0.3) / lit 2 - lit 0.3;
         positionY := lit 0;
         positionZ := lit 0 |}).

(** The ends of the plane along the world x axis: a [PlaneGeometry] is
    centred on its mesh's position, and the rotation about x leaves x as
    it is. *)
Definition meshLeft (m : Mesh) : A :=
  positionX m - planeWidth (geometry m) / lit 2.
Definition meshRight (m : Mesh) : A :=
  positionX m + planeWidth (geometry m) / lit 2.

(** [canvas.toDataURL(format, quality)] is the browser's encoder; the
    quality is [None] in a call that passes the format alone. *)
Variable toDataURL : Canvas A -> string -> option A -> string.

(** [getDataURL(format = 'image/png', quality = 1.0)]: an argument that
    is left out is [None]. *)
Definition getDataURL (fuel : nat) (rand : nat -> A) (this : MatGenerator A)
    (format : option string) (quality : option A)
    : Result (MatGenerator A * string) :=
  this <- ensureCanvas fuel rand this ;;
  match canvas this with
  | None => Throw TypeError
  | Some c =>
      Ok (this, toDataURL c (orElse format "image/png"%string)
                          (Some (orElse quality (lit 1.0))))
  end.

(** The link that [downloadImage] builds and clicks. *)
Record Link := { download : string; href : string }.

(** [downloadImage(filename = 'jump-mat.png')] *)
Definition downloadImage (fuel : nat) (rand : nat -> A) (this : MatGenerator A)
    (filename : option string) : Result (MatGenerator A * Link) :=
  r <- getDataURL fuel rand this None None ;;
  let (this, dataURL) := r in
  Ok (this, {| download := orElse filename "jump-mat.png"%string;
               href := dataURL |}).

(** *** aruco.js: [getArucoMarkerDataURL] *)

(** [getArucoMarkerDataURL(id, size = 128)]; the call leaves the border
    to the default of [createArucoMarker], 16. *)
Definition getArucoMarkerDataURL (id : Z) (size : option A) : Result string :=
  canvas <- createArucoMarker id (orElse size (lit 128)) (lit 16) ;;
  Ok (toDataURL canvas "image/png"%string None).

(** *** main.js: the viewer's mat *)

Record ViewerState := {
  showAruco : bool;
  showFineScale : bool;
  showGrid : bool;
  statePixelsPerMeter : A;
  cameraAngle : A
}.

(** What the methods below do to the scene and to the mesh they
    replace, in order. *)
Inductive SceneOp :=
| SceneAdd (m : Mesh)
| SceneRemove (m : Mesh)
| DisposeGeometry (g : PlaneGeometry)
| DisposeMaterial (m : MeshStandardMaterial).

(** The part of a [JumpMatViewer] that the mat's methods read or write. *)
Record JumpMatViewer := {
  state : ViewerState;
  matGenerator : option (MatGenerator A);
  matMesh : option Mesh;
  scene : list SceneOp
}.

(** The state that the constructor sets up. *)
Definition initialState : ViewerState :=
  {| showAruco := true; showFineScale := true; showGrid := false;
     statePixelsPerMeter := lit 1000; cameraAngle := lit 45 |}.

Definition new_JumpMatViewer : JumpMatViewer :=
  {| state := initialState; matGenerator := None; matMesh := None;
     scene := [] |}.

(** [new MatGenerator({ pixelsPerMeter: this.state.pixelsPerMeter })] *)
Definition viewerOptions (v : JumpMatViewer) : Options A :=
  {| optTotalLength := None; optTotalWidth := None; optZones := None;
     optScales := None; optAruco := None;
     optPixelsPerMeter := Some (statePixelsPerMeter (state v)) |}.

(** [createMat()] *)
Definition createMat (fuel : nat) (rand : nat -> A) (v : JumpMatViewer)
    : Result JumpMatViewer :=
  r <- createMesh fuel rand (new_MatGenerator (viewerOptions v)) ;;
  let (generator, mesh) := r in
  Ok {| state := state v;
        matGenerator := Some generator;
        matMesh := Some mesh;
        scene := scene v ++ [SceneAdd mesh] |}.

(** [regenerateMat()] *)
Definition regenerateMat (fuel : nat) (rand : nat -> A) (v : JumpMatViewer)
    : Result JumpMatViewer :=
  let removed :=
    match matMesh v with
    | Some old => [ SceneRemove old; DisposeGeometry (geometry old);
                    DisposeMaterial (material old) ]
    | None => []
    end in
  r <- createMesh fuel rand (new_MatGenerator (viewerOptions v)) ;;
  let (generator, mesh) := r in
  Ok {| state := state v;
        matGenerator := Some generator;
        matMesh := Some mesh;
        scene := scene v ++ removed ++ [SceneAdd mesh] |}.

(** The click handlers of the two switches; [active] tells whether the
    button carries the class [active] once the click has toggled it. *)
Definition onToggleAruco (fuel : nat) (rand : nat -> A) (active : bool)
    (v : JumpMatViewer) : Result JumpMatViewer :=
  regenerateMat fuel rand
    {| state := {| showAruco := active;
                   showFineScale := showFineScale (state v);
                   showGrid := showGrid (state v);
                   statePixelsPerMeter := statePixelsPerMeter (state v);
                   cameraAngle := cameraAngle (state v) |};
       matGenerator := matGenerator v;
       matMesh := matMesh v;
       scene := scene v |}.

Definition onToggleFineScale (fuel : nat) (rand : nat -> A) (active : bool)
    (v : JumpMatViewer) : Result JumpMatViewer :=
  regenerateMat fuel rand
    {| state := {| showAruco := showAruco (state v);
                   showFineScale := active;
                   showGrid := showGrid (state v);
                   statePixelsPerMeter := statePixelsPerMeter (state v);
                   cameraAngle := cameraAngle (state v) |};
       matGenerator := matGenerator v;
       matMesh := matMesh v;
       scene := scene v |}.

(** The click handler of the PNG button. *)
Definition onDownloadPng (fuel : nat) (rand : nat -> A) (v : JumpMatViewer)
    : Result (JumpMatViewer * Link) :=
  match matGenerator v with
  | None => Throw TypeError
  | Some generator =>
      r <- downloadImage fuel rand generator
             (Some "jump-mat-cv-optimized.png"%string) ;;
      let (generator, link) := r in
      Ok ({| state := state v;
             matGenerator := Some generator;
             matMesh := matMesh v;
             scene := scene v |}, link)
  end.
End Drawn.

Arguments Xform : clear implicits.
Arguments CanvasTexture : clear implicits.
Arguments PlaneGeometry : clear implicits.
Arguments MeshStandardMaterial : clear implicits.
Arguments Mesh : clear implicits.
Arguments ViewerState : clear implicits.
Arguments SceneOp : clear implicits.
Arguments JumpMatViewer : clear implicits.

(** * Properties *)

(** ** Literals *)

(** The decimal literals of the program, read through [lit], are the
    binary64 values nearest to them. *)
Lemma literals_binary64 :
  map lit [ 0.3; 0.1; 1.4; 0.01; 2.8; 2.9; 3.0; 0.9; 0.08; 0.015; 0.02;
            0.008; 0.004; 0.002; 0.25; 0.15; 0.45; 0.35; 0.12; 0.003;
            0.0025; 0.0012; 0.2; 0.5; 1.35; 1.8; 2.4; 1200; 100; 10; 5; 6 ]%Q
  = [ 0.3; 0.1; 1.4; 0.01; 2.8; 2.9; 3.0; 0.9; 0.08; 0.015; 0.02;
      0.008; 0.004; 0.002; 0.25; 0.15; 0.45; 0.35; 0.12; 0.003;
      0.0025; 0.0012; 0.2; 0.5; 1.35; 1.8; 2.4; 1200; 100; 10; 5; 6 ]%float /\
  lit (-0.08) = (-0.08)%float /\
  Binary64.of_Z 9007199254740993
  = FloatOps.SF2Prim
      (SpecFloat.binary_normalize FloatOps.prec FloatOps.emax
         9007199254740993 0 false).
Proof. repeat split; vm_compute; reflexivity. Qed.

(** ** Results and lookups *)

Lemma lookup_negative {X} (arr : list X) (k : Z) :
  k < 0 -> lookup arr k = None.
Proof.
  intros Hk. unfold lookup.
  destruct (Z.ltb_spec k 0) as [_ | Hge]; [reflexivity | lia].
Qed.

Lemma lookup_in_range {X} (arr : list X) (k : Z) :
  0 <= k < Z.of_nat (List.length arr) -> exists x, lookup arr k = Some x.
Proof.
  intros [Hlo Hhi]. unfold lookup.
  destruct (Z.ltb_spec k 0) as [Hneg | _]; [lia |].
  destruct (nth_error arr (Z.to_nat k)) as [x |] eqn:E.
  - exists x; reflexivity.
  - apply nth_error_None in E. lia.
Qed.

(** Every pattern of the table is a 4x4 matrix of bits. *)
Lemma dictionary_shape :
  Forall (fun pattern =>
            List.length pattern = 4%nat /\
            Forall (fun row =>
                      List.length row = 4%nat /\
                      Forall (fun v => v = 0 \/ v = 1) row) pattern)
         ARUCO_DICT_4X4_50.
Proof.
  unfold ARUCO_DICT_4X4_50.
  repeat (apply Forall_cons || apply Forall_nil || split
          || reflexivity || (left; reflexivity) || (right; reflexivity)).
Qed.

(** The dividend's sign decides the sign of [id % N]. *)
Lemma rem_negative (id : Z) :
  id < 0 -> Z.rem id dictionarySize <> 0 -> Z.rem id dictionarySize < 0.
Proof.
  intros Hneg Hnz.
  assert (Hb : - dictionarySize < Z.rem id dictionarySize <= 0).
  { apply Z.rem_bound_pos_neg; [reflexivity | lia]. }
  lia.
Qed.

Lemma rem_nonnegative (id : Z) :
  0 <= id ->
  0 <= Z.rem id dictionarySize < dictionarySize /\
  Z.rem id dictionarySize = id mod dictionarySize.
Proof.
  intros Hid. split.
  - apply Z.rem_bound_pos; [exact Hid | reflexivity].
  - apply Z.rem_mod_nonneg; [exact Hid | reflexivity].
Qed.

Section EncoderFacts.
Context {A : Type} `{Number A}.

(** What the encoder returns once the lookup has found a pattern. *)
Lemma createArucoMarker_found (id : Z) (size borderSize : A) pattern :
  lookup ARUCO_DICT_4X4_50 (Z.rem id dictionarySize) = Some pattern ->
  exists patch, createArucoMarker id size borderSize = Ok patch.
Proof.
  intros E. unfold createArucoMarker. fold dictionarySize. rewrite E.
  eexists; reflexivity.
Qed.

Lemma createArucoMarker_nonnegative (id : Z) (size borderSize : A) :
  0 <= id -> exists patch, createArucoMarker id size borderSize = Ok patch.
Proof.
  intros Hid.
  destruct (rem_nonnegative id Hid) as [Hr _].
  destruct (lookup_in_range ARUCO_DICT_4X4_50 _ Hr) as [pattern E].
  exact (createArucoMarker_found id size borderSize pattern E).
Qed.

(** The encoder reads [id] only through [id % N]. *)
Lemma createArucoMarker_rem (id id' : Z) (size borderSize : A) :
  Z.rem id dictionarySize = Z.rem id' dictionarySize ->
  createArucoMarker id size borderSize = createArucoMarker id' size borderSize.
Proof.
  intros E. unfold createArucoMarker. fold dictionarySize.
  rewrite E. reflexivity.
Qed.

(** A patch has the size its canvas makes of [size + borderSize * 2], and
    is drawn with filled rectangles only. *)
Lemma createArucoMarker_size (id : Z) (size borderSize : A) patch :
  createArucoMarker id size borderSize = Ok patch ->
  width patch = canvasDim 300 (nadd size (nmul borderSize (lit 2))) /\
  height patch = canvasDim 150 (nadd size (nmul borderSize (lit 2))) /\
  forallb isFill (calls patch) = true.
Proof.
  unfold createArucoMarker.
  destruct (lookup _ _) as [pattern |]; [| discriminate].
  intros E. injection E as <-. repeat split.
Qed.
End EncoderFacts.

(** C10.  For a negative [id] that is no multiple of the dictionary size,
    [id % N] is negative, the table has no entry at that index, and
    [createArucoMarker(id, S, B)] throws instead of returning a patch,
    whatever the sizes; a non-negative [id] always yields a patch. *)
Theorem createArucoMarker_negative_id_throws
    {A : Type} `{Number A} (id : Z) (S B : A) :
  id < 0 ->
  Z.rem id dictionarySize <> 0 ->
  Z.rem id dictionarySize < 0 /\
  lookup ARUCO_DICT_4X4_50 (Z.rem id dictionarySize) = None /\
  createArucoMarker id S B = Throw TypeError /\
  (forall id', 0 <= id' -> exists patch, createArucoMarker id' S B = Ok patch).
Proof.
  intros Hneg Hnz.
  pose proof (rem_negative id Hneg Hnz) as Hr.
  pose proof (lookup_negative ARUCO_DICT_4X4_50 _ Hr) as Hl.
  repeat split; try assumption.
  - unfold createArucoMarker. fold dictionarySize. rewrite Hl. reflexivity.
  - intros id' Hid'. apply createArucoMarker_nonnegative; exact Hid'.
Qed.

Lemma createArucoMarker_negative_id_throws_witness :
  Z.rem (-1) dictionarySize < 0 /\
  lookup ARUCO_DICT_4X4_50 (Z.rem (-1) dictionarySize) = None /\
  createArucoMarker (A := float) (-1) 96%float 0%float = Throw TypeError /\
  (forall id', 0 <= id' ->
     exists patch, createArucoMarker id' 96%float 0%float = Ok patch).
Proof.
  apply (createArucoMarker_negative_id_throws (-1) 96%float 0%float).
  - reflexivity.
  - vm_compute. discriminate.
Defined.

(** C3, as stated, fails at [id = -1]: the encoder throws for [-1] and
    returns the patch of pattern 11 for [-1 + 12]. *)
Lemma createArucoMarker_wrap_fails_below_zero :
  createArucoMarker (A := float) (-1) 96%float 0%float = Throw TypeError /\
  (exists patch,
     createArucoMarker (A := float) (-1 + dictionarySize) 96%float 0%float
     = Ok patch) /\
  createArucoMarker (A := float) (-1) 96%float 0%float
  <> createArucoMarker (-1 + dictionarySize) 96%float 0%float.
Proof.
  assert (E : createArucoMarker (A := float) (-1) 96%float 0%float
              = Throw TypeError) by reflexivity.
  destruct (createArucoMarker_nonnegative (A := float)
              (-1 + dictionarySize) 96%float 0%float) as [patch P];
    [vm_compute; discriminate |].
  split; [exact E |]. split; [exists patch; exact P |].
  rewrite E, P. discriminate.
Qed.

(** C3, amended.  For every non-negative [id] and all sizes the encoder
    reduces [id] modulo the dictionary size: it returns a patch, the same
    as for [id mod N] and as for [id + N]. *)
Theorem createArucoMarker_wraps_nonnegative
    {A : Type} `{Number A} (id : Z) (S B : A) :
  0 <= id ->
  (exists patch, createArucoMarker id S B = Ok patch) /\
  createArucoMarker id S B = createArucoMarker (id mod dictionarySize) S B /\
  createArucoMarker (id + dictionarySize) S B = createArucoMarker id S B.
Proof.
  intros Hid.
  destruct (rem_nonnegative id Hid) as [Hr Hm].
  split; [apply createArucoMarker_nonnegative; exact Hid |]. split.
  - apply createArucoMarker_rem.
    rewrite Hm. symmetry. apply Z.rem_small.
    apply Z.mod_pos_bound. reflexivity.
  - apply createArucoMarker_rem.
    rewrite Z.rem_mod_nonneg by (try reflexivity; unfold dictionarySize; simpl; lia).
    rewrite Hm.
    rewrite <- (Z.mul_1_l dictionarySize) at 1.
    apply Z.mod_add. discriminate.
Qed.

Lemma createArucoMarker_wraps_nonnegative_witness :
  (exists patch, createArucoMarker (A := float) 17 96%float 0%float = Ok patch) /\
  createArucoMarker (A := float) 17 96%float 0%float
  = createArucoMarker (17 mod dictionarySize) 96%float 0%float /\
  createArucoMarker (A := float) (17 + dictionarySize) 96%float 0%float
  = createArucoMarker 17 96%float 0%float.
Proof.
  apply (createArucoMarker_wraps_nonnegative 17 96%float 0%float).
  vm_compute. discriminate.
Defined.


(** ** Loops *)

Section LoopFacts.
Context {A : Type} `{Number A}.

(** A loop that ends within some fuel ends the same way with more. *)
Lemma numRange_more_fuel (fuel fuel' : nat) (pos limit step : A) l :
  numRange fuel pos limit step = Some l ->
  (fuel <= fuel')%nat ->
  numRange fuel' pos limit step = Some l.
Proof.
  revert fuel' pos l.
  induction fuel as [| fuel IH]; intros fuel' pos l E Hle.
  - destruct fuel'; simpl in *; destruct (nleb pos limit);
      try discriminate; exact E.
  - destruct fuel' as [| fuel']; [lia |].
    simpl in *. destruct (nleb pos limit); [| exact E].
    destruct (numRange fuel (nadd pos step) limit step) as [l' |] eqn:E';
      [| discriminate].
    rewrite (IH fuel' _ l' E') by lia. exact E.
Qed.

Lemma forNum_range (fuel : nat) (start limit step : A) body l :
  numRange fuel start limit step = Some l ->
  forNum fuel start limit step body = Ok (flat_map body l).
Proof. intros E. unfold forNum. rewrite E. reflexivity. Qed.

Lemma drawImage_cases (image : Canvas A) (dx dy dw dh : A) :
  drawImage image dx dy dw dh = Throw InvalidStateError \/
  drawImage image dx dy dw dh = Ok [ DrawImage image dx dy dw dh ].
Proof. unfold drawImage. destruct (orb _ _); [left | right]; reflexivity. Qed.

Lemma call_call (c : Canvas A) cs cs' :
  call (call c cs) cs' = call c (cs ++ cs').
Proof. unfold call; simpl. rewrite app_assoc. reflexivity. Qed.
End LoopFacts.

(** The three loops in binary64. *)
Lemma takeoff_range_binary64 (fuel : nat) :
  (13 <= fuel)%nat ->
  numRange fuel (lit 0.1) (lit 1.4) (lit 0.1) = Some takeoffPositions.
Proof.
  apply numRange_more_fuel. vm_compute. reflexivity.
Qed.

Lemma precision_range_binary64 (fuel : nat) :
  (141 <= fuel)%nat ->
  numRange fuel (lit 1.4) (lit 2.8) (lit 0.01) = Some precisionPositions.
Proof.
  apply numRange_more_fuel. vm_compute. reflexivity.
Qed.

Lemma extension_range_binary64 (fuel : nat) :
  (2 <= fuel)%nat ->
  numRange fuel (lit 2.9) (lit 3.0) (lit 0.1) = Some extensionPositions.
Proof.
  apply numRange_more_fuel. vm_compute. reflexivity.
Qed.

(** The same loop bounds in exact arithmetic: fourteen ticks, the last one
    at 1.4. *)
Lemma takeoff_range_exact :
  option_map (map Qred) (numRange 14 (lit 0.1) (lit 1.4) (lit 0.1))
  = Some (map Qred [ 0.1; 0.2; 0.3; 0.4; 0.5; 0.6; 0.7; 0.8; 0.9; 1; 1.1;
                     1.2; 1.3; 1.4 ]%Q).
Proof. vm_compute. reflexivity. Qed.


(** ** The passes of [generate] *)

Section GenerateFacts.
Context {A : Type} `{Number A}.

Lemma initCanvas_canvas (this : MatGenerator A) :
  initCanvas this = withCanvas this (initialCanvas this).
Proof. reflexivity. Qed.

Lemma draw_withCanvas (this : MatGenerator A) c pass :
  draw (withCanvas this c) pass
  = (cs <- pass c ;; Ok (withCanvas this (call c cs))).
Proof. reflexivity. Qed.

(** No pass changes the size of the surface. *)
Lemma call_size (c : Canvas A) cs :
  width (call c cs) = width c /\ height (call c cs) = height c.
Proof. split; reflexivity. Qed.

(** [generate] is the six passes in the order of the source, each reading
    the generator and the size of the surface and appending its calls. *)
Lemma generate_unfold (fuel : nat) (rand : nat -> A) (this : MatGenerator A) :
  generate fuel rand this =
  (bg <- drawBackground_calls rand this (initialCanvas this) ;;
   tk <- drawTakeoffZoneScales_calls fuel this (initialCanvas this) ;;
   pr <- drawPrecisionZoneScales_calls fuel this (initialCanvas this) ;;
   lb <- drawSimplifiedLabels_calls this (initialCanvas this) ;;
   bd <- drawBorder_calls this (initialCanvas this) ;;
   mk <- drawArucoMarkers_calls this (initialCanvas this) ;;
   Ok (withCanvas this
         (call (initialCanvas this) (bg ++ tk ++ pr ++ lb ++ bd ++ mk)))).
Proof.
  unfold generate. cbv zeta. rewrite initCanvas_canvas.
  set (c0 := initialCanvas this).
  unfold drawBackground. rewrite draw_withCanvas.
  change (drawBackground_calls rand (withCanvas this c0) c0)
    with (drawBackground_calls rand this c0).
  destruct (drawBackground_calls rand this c0) as [bg | e |];
    cbn [bind]; try reflexivity.
  unfold drawTakeoffZoneScales. rewrite draw_withCanvas.
  change (drawTakeoffZoneScales_calls fuel (withCanvas this (call c0 bg))
            (call c0 bg))
    with (drawTakeoffZoneScales_calls fuel this c0).
  destruct (drawTakeoffZoneScales_calls fuel this c0) as [tk | e |];
    cbn [bind]; try reflexivity.
  rewrite call_call.
  unfold drawPrecisionZoneScales. rewrite draw_withCanvas.
  change (drawPrecisionZoneScales_calls fuel
            (withCanvas this (call c0 (bg ++ tk))) (call c0 (bg ++ tk)))
    with (drawPrecisionZoneScales_calls fuel this c0).
  destruct (drawPrecisionZoneScales_calls fuel this c0) as [pr | e |];
    cbn [bind]; try reflexivity.
  rewrite call_call.
  unfold drawSimplifiedLabels. rewrite draw_withCanvas.
  change (drawSimplifiedLabels_calls
            (withCanvas this (call c0 ((bg ++ tk) ++ pr)))
            (call c0 ((bg ++ tk) ++ pr)))
    with (drawSimplifiedLabels_calls this c0).
  destruct (drawSimplifiedLabels_calls this c0) as [lb | e |];
    cbn [bind]; try reflexivity.
  rewrite call_call.
  unfold drawBorder. rewrite draw_withCanvas.
  change (drawBorder_calls
            (withCanvas this (call c0 (((bg ++ tk) ++ pr) ++ lb)))
            (call c0 (((bg ++ tk) ++ pr) ++ lb)))
    with (drawBorder_calls this c0).
  destruct (drawBorder_calls this c0) as [bd | e |];
    cbn [bind]; try reflexivity.
  rewrite call_call.
  unfold drawArucoMarkers. rewrite draw_withCanvas.
  change (drawArucoMarkers_calls
            (withCanvas this (call c0 ((((bg ++ tk) ++ pr) ++ lb) ++ bd)))
            (call c0 ((((bg ++ tk) ++ pr) ++ lb) ++ bd)))
    with (drawArucoMarkers_calls this c0).
  destruct (drawArucoMarkers_calls this c0) as [mk | e |];
    cbn [bind]; try reflexivity.
  rewrite call_call. rewrite <- !app_assoc. reflexivity.
Qed.

(** [drawImage] on a patch of the marker pass: all eight patches have the
    size of [markerCanvasSize]. *)
Lemma drawImage_marker (this : MatGenerator A) (id : Z) patch dx dy dw dh :
  createArucoMarker id (meterToPixel this (lit 0.08)) (lit 0) = Ok patch ->
  drawImage patch dx dy dw dh
  = if markersUsable this then Ok [ DrawImage patch dx dy dw dh ]
    else Throw InvalidStateError.
Proof.
  intros E. destruct (createArucoMarker_size _ _ _ _ E) as (W & Hh & _).
  unfold drawImage, markersUsable, markerCanvasSize. cbn [fst snd].
  rewrite W, Hh. destruct (orb _ _); reflexivity.
Qed.

Ltac marker_pass this U :=
  unfold drawArucoMarkers_calls, indexed, drawArucoPair;
  cbn [List.length seq map combine forEach];
  repeat match goal with
  | |- context [createArucoMarker ?id ?s ?b] =>
      let patch := fresh "patch" in
      let E := fresh "E" in
      destruct (createArucoMarker_nonnegative id s b) as [patch E];
      [vm_compute; discriminate |];
      rewrite E; cbn [bind];
      rewrite (drawImage_marker this _ patch _ _ _ _ E), U; cbn [bind]
  end.

(** The marker pass asks the encoder for the identifiers 0 to 7 only, so
    the encoder never throws; the pass returns when [drawImage] can use
    the patches, and throws with the first [drawImage] when it cannot. *)
Lemma drawArucoMarkers_calls_Ok (this : MatGenerator A) (c : Canvas A) :
  markersUsable this = true ->
  exists mk, drawArucoMarkers_calls this c = Ok mk.
Proof.
  intros U. marker_pass this U. eexists; reflexivity.
Qed.

Lemma drawArucoMarkers_calls_throws (this : MatGenerator A) (c : Canvas A) :
  markersUsable this = false ->
  drawArucoMarkers_calls this c = Throw InvalidStateError.
Proof.
  intros U. marker_pass this U. reflexivity.
Qed.

(** Whenever its three tick loops end within the fuel, [generate] runs its
    first five passes whatever the generator: no pass inspects the
    configuration for validity.  It returns the surface when [drawImage]
    can use the marker patches, and throws in the marker pass when it
    cannot. *)
Lemma generate_returns (fuel : nat) (rand : nat -> A) (this : MatGenerator A)
    l1 l2 l3 :
  numRange fuel (lit 0.1) (lit 1.4) (lit 0.1) = Some l1 ->
  numRange fuel (lit 1.4) (lit 2.8) (lit 0.01) = Some l2 ->
  numRange fuel (lit 2.9) (lit 3.0) (lit 0.1) = Some l3 ->
  markersUsable this = true ->
  exists bg tk pr lb bd mk,
    drawBackground_calls rand this (initialCanvas this) = Ok bg /\
    drawTakeoffZoneScales_calls fuel this (initialCanvas this) = Ok tk /\
    drawPrecisionZoneScales_calls fuel this (initialCanvas this) = Ok pr /\
    drawSimplifiedLabels_calls this (initialCanvas this) = Ok lb /\
    drawBorder_calls this (initialCanvas this) = Ok bd /\
    drawArucoMarkers_calls this (initialCanvas this) = Ok mk /\
    generate fuel rand this
    = Ok (withCanvas this
            (call (initialCanvas this)
                  (bg ++ tk ++ pr ++ lb ++ bd ++ mk))).
Proof.
  intros E1 E2 E3 U.
  destruct (drawArucoMarkers_calls_Ok this (initialCanvas this) U)
    as [mk Emk].
  rewrite generate_unfold. rewrite Emk.
  unfold drawTakeoffZoneScales_calls, drawPrecisionZoneScales_calls.
  rewrite (forNum_range _ _ _ _ _ _ E1), (forNum_range _ _ _ _ _ _ E2),
    (forNum_range _ _ _ _ _ _ E3).
  unfold drawBackground_calls, drawSimplifiedLabels_calls, drawBorder_calls.
  cbn [bind].
  do 5 eexists. exists mk. repeat split; reflexivity.
Qed.

Lemma generate_throws (fuel : nat) (rand : nat -> A) (this : MatGenerator A)
    l1 l2 l3 :
  numRange fuel (lit 0.1) (lit 1.4) (lit 0.1) = Some l1 ->
  numRange fuel (lit 1.4) (lit 2.8) (lit 0.01) = Some l2 ->
  numRange fuel (lit 2.9) (lit 3.0) (lit 0.1) = Some l3 ->
  markersUsable this = false ->
  exists bg tk pr lb bd,
    drawBackground_calls rand this (initialCanvas this) = Ok bg /\
    drawTakeoffZoneScales_calls fuel this (initialCanvas this) = Ok tk /\
    drawPrecisionZoneScales_calls fuel this (initialCanvas this) = Ok pr /\
    drawSimplifiedLabels_calls this (initialCanvas this) = Ok lb /\
    drawBorder_calls this (initialCanvas this) = Ok bd /\
    drawArucoMarkers_calls this (initialCanvas this)
    = Throw InvalidStateError /\
    generate fuel rand this = Throw InvalidStateError.
Proof.
  intros E1 E2 E3 U.
  pose proof (drawArucoMarkers_calls_throws this (initialCanvas this) U)
    as Emk.
  rewrite generate_unfold. rewrite Emk.
  unfold drawTakeoffZoneScales_calls, drawPrecisionZoneScales_calls.
  rewrite (forNum_range _ _ _ _ _ _ E1), (forNum_range _ _ _ _ _ _ E2),
    (forNum_range _ _ _ _ _ _ E3).
  unfold drawBackground_calls, drawSimplifiedLabels_calls, drawBorder_calls.
  cbn [bind].
  do 5 eexists. repeat split; reflexivity.
Qed.
End GenerateFacts.


(** ** The flight-zone ticks *)

(** In exact arithmetic the loop of [drawTakeoffZoneScales] does what its
    condition is written for: fourteen ticks from 0.1 to 1.4, the fifth and
    the tenth (0.5 and 1.0) at the longer length. *)
Lemma takeoff_ticks_exact :
  option_map (map takeoffTickLength)
             (numRange 14 (lit 0.1 : Q) (lit 1.4) (lit 0.1))
  = Some [ 0.15; 0.15; 0.15; 0.15; 0.25; 0.15; 0.15; 0.15; 0.15; 0.25;
           0.15; 0.15; 0.15; 0.15 ]%Q.
Proof. vm_compute. reflexivity. Qed.

(** C6, on the code.  In binary64 the flight-zone pass strokes the origin
    line and then thirteen ticks, at the positions [takeoffPositions]: the
    sum reaches 1.4000000000000001 after the thirteenth, so no tick is drawn
    at 1.4, and the tenth tick stands at 0.9999999999999999, where
    [(pos * 10) % 5] is not 0: only the fifth tick (0.5) gets the longer
    line, the tick at one metre gets the shorter one. *)
Theorem takeoff_ticks_binary64
    (fuel : nat) (this : MatGenerator float) (c : Canvas float) :
  (13 <= fuel)%nat ->
  drawTakeoffZoneScales_calls fuel this c
  = Ok ([ SetStrokeStyle (scaleYellow (colors this));
          SetFillStyle (textGold (colors this));
          SetLineWidth (meterToPixel this (lit 0.004));
          BeginPath;
          MoveTo (getX this (lit 0)) (lit 0);
          LineTo (getX this (lit 0)) (ofZ (height c));
          Stroke ]
        ++ flat_map (takeoffTick this c) takeoffPositions) /\
  map takeoffTickLength takeoffPositions
  = [ 0.15; 0.15; 0.15; 0.15; 0.25; 0.15; 0.15; 0.15; 0.15; 0.15; 0.15;
      0.15; 0.15 ]%Q /\
  nth 9 takeoffPositions 0%float = 0.9999999999999999%float /\
  nrem (nmul 0.9999999999999999%float (lit 10)) (lit 5)
  = 4.999999999999998%float /\
  nadd 1.3%float (lit 0.1) = 1.4000000000000001%float /\
  nleb 1.4000000000000001%float (lit 1.4) = false.
Proof.
  intros Hfuel. split.
  - unfold drawTakeoffZoneScales_calls.
    rewrite (forNum_range _ _ _ _ _ _ (takeoff_range_binary64 fuel Hfuel)).
    reflexivity.
  - repeat split; vm_compute; reflexivity.
Qed.

Lemma takeoff_ticks_binary64_witness :
  map takeoffTickLength takeoffPositions
  = [ 0.15; 0.15; 0.15; 0.15; 0.25; 0.15; 0.15; 0.15; 0.15; 0.15; 0.15;
      0.15; 0.15 ]%Q.
Proof.
  exact (proj1 (proj2 (takeoff_ticks_binary64 13
                         (new_MatGenerator noOptions) createCanvas
                         (le_n 13)))).
Defined.

(** ** The precision-zone ticks *)

Lemma rem_zero_divide (a b : Z) : b <> 0 -> (Z.rem a b =? 0) = true <-> (b | a).
Proof.
  intros Hb. rewrite Z.eqb_eq. apply Z.rem_divide. exact Hb.
Qed.

Lemma tierOf_spec (cm : Z) :
  match tierOf cm with
  | Metre => (100 | cm)
  | HalfMetre => ~ (100 | cm) /\ (50 | cm)
  | Decimetre => ~ (100 | cm) /\ ~ (50 | cm) /\ (10 | cm)
  | Centimetre => ~ (100 | cm) /\ ~ (50 | cm) /\ ~ (10 | cm)
  end.
Proof.
  unfold tierOf.
  destruct (Z.rem cm 100 =? 0) eqn:E100.
  { apply rem_zero_divide in E100; [exact E100 | discriminate]. }
  assert (N100 : ~ (100 | cm)).
  { intros D. apply (rem_zero_divide cm 100) in D; [congruence | discriminate]. }
  destruct (Z.rem cm 50 =? 0) eqn:E50.
  { apply rem_zero_divide in E50; [split; assumption | discriminate]. }
  assert (N50 : ~ (50 | cm)).
  { intros D. apply (rem_zero_divide cm 50) in D; [congruence | discriminate]. }
  destruct (Z.rem cm 10 =? 0) eqn:E10.
  { apply rem_zero_divide in E10; [repeat split; assumption | discriminate]. }
  repeat split; try assumption.
  intros D. apply (rem_zero_divide cm 10) in D; [congruence | discriminate].
Qed.

(** C2.  Every tick of the precision loop is stroked with the height and
    line width of [tierOf cm], where [cm] is the tick's rounded centimetre
    value and nothing else of the tick is read; [tierOf cm] is the coarsest
    of the rules 100, 50, 10, 1 that [cm] satisfies, the rules being tried
    in that order; and in binary64 the loop draws exactly the ticks of
    140 cm to 280 cm, one per centimetre. *)
Theorem precision_tick_tier
    (fuel : nat) (this : MatGenerator float) (c : Canvas float) :
  (141 <= fuel)%nat ->
  (forall cm : Z,
     (tierCadence (tierOf cm) | cm) /\
     (forall t, (tierCadence t | cm) -> tierCadence t <= tierCadence (tierOf cm)) /\
     (tierOf cm = Metre <-> (100 | cm)) /\
     (tierOf cm = HalfMetre <-> (50 | cm) /\ ~ (100 | cm)) /\
     (tierOf cm = Decimetre <-> (10 | cm) /\ ~ (50 | cm)) /\
     (tierOf cm = Centimetre <-> ~ (10 | cm))) /\
  drawPrecisionZoneScales_calls fuel this c
  = Ok ([ SetStrokeStyle (scaleFine (colors this)) ]
        ++ flat_map (precisionTick this c) precisionPositions
        ++ flat_map (extensionTick this c) extensionPositions) /\
  map cmValueAt precisionPositions = map Z.of_nat (seq 140 141) /\
  (tierHeight Centimetre < tierHeight Decimetre < tierHeight HalfMetre)%Q /\
  (tierHeight HalfMetre < tierHeight Metre)%Q /\
  (forall pos : float,
     precisionTick this c pos
     = strokeTick
         (meterToPixel this (lit (tierLineWidth (tierOf (cmValueAt pos)))))
         (getX this pos)
         (ndiv (ofZ (height c)) (lit 2))
         (meterToPixel this (lit (tierHeight (tierOf (cmValueAt pos)))))).
Proof.
  intros Hfuel. split; [| split; [| split; [| split; [| split]]]].
  - intros cm. pose proof (tierOf_spec cm) as S.
    assert (D100 : (100 | cm) -> (50 | cm) /\ (10 | cm)).
    { intros [k ->]. split; [exists (2 * k) | exists (10 * k)]; lia. }
    assert (D50 : (50 | cm) -> (10 | cm)).
    { intros [k ->]. exists (5 * k); lia. }
    destruct (tierOf cm); simpl tierCadence.
    + repeat split; try tauto; try discriminate.
      intros t _. destruct t; simpl; lia.
    + destruct S as [N100 Y50]. repeat split; try tauto; try discriminate.
      intros t Ht. destruct t; simpl in *; try lia. tauto.
    + destruct S as [N100 [N50 Y10]].
      repeat split; try tauto; try discriminate.
      intros t Ht. destruct t; simpl in *; try lia; tauto.
    + destruct S as [N100 [N50 N10]].
      repeat split; try tauto; try discriminate.
      * apply Z.divide_1_l.
      * intros t Ht. destruct t; simpl in *; try lia; tauto.
  - unfold drawPrecisionZoneScales_calls.
    rewrite (forNum_range _ _ _ _ _ _ (precision_range_binary64 fuel Hfuel)).
    assert (Hfuel2 : (2 <= fuel)%nat) by lia.
    rewrite (forNum_range _ _ _ _ _ _ (extension_range_binary64 fuel Hfuel2)).
    reflexivity.
  - vm_compute. reflexivity.
  - split; reflexivity.
  - reflexivity.
  - intros pos. reflexivity.
Qed.

Lemma precision_tick_tier_witness :
  map cmValueAt precisionPositions = map Z.of_nat (seq 140 141).
Proof.
  exact (proj1 (proj2 (proj2 (precision_tick_tier 141
                                (new_MatGenerator noOptions) createCanvas
                                (le_n 141))))).
Defined.


(** ** The order of the passes *)

Section OrderFacts.
Context {A : Type} `{Number A}.

Lemma strokeTick_no_image (w x y h : A) :
  Forall (fun c => drawsImage c = false) (strokeTick w x y h).
Proof. unfold strokeTick. repeat constructor. Qed.

Lemma flat_map_no_image {X} (f : X -> list (Call A)) (l : list X) :
  (forall x, Forall (fun c => drawsImage c = false) (f x)) ->
  Forall (fun c => drawsImage c = false) (flat_map f l).
Proof.
  intros Hf. apply Forall_flat_map. apply Forall_forall. intros x _. apply Hf.
Qed.

Lemma placements_no_image (cs : list (Call A)) :
  Forall (fun c => drawsImage c = false) cs -> placements cs = [].
Proof.
  induction 1 as [| c cs Hc _ IH]; [reflexivity |].
  unfold placements in *. cbn [flat_map]. rewrite IH.
  destruct c; try discriminate; reflexivity.
Qed.

Lemma placements_app (cs cs' : list (Call A)) :
  placements (cs ++ cs') = placements cs ++ placements cs'.
Proof. unfold placements. apply flat_map_app. Qed.

Ltac no_image :=
  repeat first
    [ apply Forall_nil
    | apply Forall_cons; [reflexivity |]
    | apply strokeTick_no_image
    | apply flat_map_no_image; intros ?
    | apply Forall_app; split ].

(** Only the marker pass composites images. *)
Lemma other_passes_draw_no_image fuel rand (this : MatGenerator A) c
    bg tk pr lb bd :
  drawBackground_calls rand this c = Ok bg ->
  drawTakeoffZoneScales_calls fuel this c = Ok tk ->
  drawPrecisionZoneScales_calls fuel this c = Ok pr ->
  drawSimplifiedLabels_calls this c = Ok lb ->
  drawBorder_calls this c = Ok bd ->
  Forall (fun c => drawsImage c = false) (bg ++ tk ++ pr ++ lb ++ bd).
Proof.
  intros Ebg Etk Epr Elb Ebd.
  apply Forall_app; split; [| apply Forall_app; split;
    [| apply Forall_app; split; [| apply Forall_app; split]]].
  - unfold drawBackground_calls in Ebg. injection Ebg as <-.
    no_image.
  - unfold drawTakeoffZoneScales_calls, forNum in Etk.
    destruct (numRange fuel (lit 0.1) (lit 1.4) (lit 0.1)); [| discriminate].
    cbn [bind] in Etk. injection Etk as <-.
    no_image.
  - unfold drawPrecisionZoneScales_calls, forNum in Epr.
    destruct (numRange fuel (lit 1.4) (lit 2.8) (lit 0.01)); [| discriminate].
    destruct (numRange fuel (lit 2.9) (lit 3.0) (lit 0.1)); [| discriminate].
    cbn [bind] in Epr. injection Epr as <-.
    no_image.
  - unfold drawSimplifiedLabels_calls in Elb. injection Elb as <-.
    no_image.
  - unfold drawBorder_calls in Ebd. injection Ebd as <-.
    no_image.
Qed.

(** The marker pass composites two images per position. *)
Lemma drawArucoMarkers_placements (this : MatGenerator A) c mk :
  drawArucoMarkers_calls this c = Ok mk ->
  List.length (placements mk) = 8%nat.
Proof.
  unfold drawArucoMarkers_calls, indexed, drawArucoPair.
  cbn [List.length seq map combine forEach].
  repeat match goal with
  | |- context [createArucoMarker ?id ?s ?b] =>
      destruct (createArucoMarker id s b); cbn [bind]; try discriminate
  | |- context [drawImage ?image ?dx ?dy ?dw ?dh] =>
      destruct (drawImage_cases image dx dy dw dh) as [-> | ->];
      cbn [bind]; try discriminate
  end.
  intros E. injection E as <-. reflexivity.
Qed.

(** The images on the generated surface are those of the marker pass. *)
Lemma surface_placements fuel rand (this : MatGenerator A) bg tk pr lb bd mk :
  drawBackground_calls rand this (initialCanvas this) = Ok bg ->
  drawTakeoffZoneScales_calls fuel this (initialCanvas this) = Ok tk ->
  drawPrecisionZoneScales_calls fuel this (initialCanvas this) = Ok pr ->
  drawSimplifiedLabels_calls this (initialCanvas this) = Ok lb ->
  drawBorder_calls this (initialCanvas this) = Ok bd ->
  placements (calls (call (initialCanvas this)
                          (bg ++ tk ++ pr ++ lb ++ bd ++ mk)))
  = placements mk.
Proof.
  intros Ebg Etk Epr Elb Ebd.
  pose proof (other_passes_draw_no_image fuel rand this _ bg tk pr lb bd
                Ebg Etk Epr Elb Ebd) as NoImage.
  change (calls (call (initialCanvas this)
                      (bg ++ tk ++ pr ++ lb ++ bd ++ mk)))
    with (calls (initialCanvas this) ++ bg ++ tk ++ pr ++ lb ++ bd ++ mk).
  rewrite placements_app.
  replace (bg ++ tk ++ pr ++ lb ++ bd ++ mk)
    with ((bg ++ tk ++ pr ++ lb ++ bd) ++ mk)
    by (rewrite <- !app_assoc; reflexivity).
  rewrite placements_app, (placements_no_image _ NoImage). reflexivity.
Qed.
End OrderFacts.

(** The order matters.  At the pixel (300, 30) of the reference surface,
    inside the quiet zone of the first marker, the fills of the background
    pass followed by those of the marker pass leave the marker's white; in
    the opposite order they leave the background colour. *)
Lemma background_and_markers_do_not_commute :
  match drawBackground_calls (fun _ => 0.5%float) reference1200
          (initialCanvas reference1200),
        drawArucoMarkers_calls reference1200 (initialCanvas reference1200) with
  | Ok bg, Ok mk =>
      paintPixel (bg ++ mk) "#000000" Untouched 300 30 = Solid "#ffffff" /\
      paintPixel (mk ++ bg) "#000000" Untouched 300 30 = Solid "#1a1a1a"
  | _, _ => False
  end.
Proof. vm_compute. split; reflexivity. Qed.

(** In binary64 the three loops end within 141 turns. *)
Lemma generate_returns_binary64
    (fuel : nat) (rand : nat -> float) (this : MatGenerator float) :
  (141 <= fuel)%nat ->
  markersUsable this = true ->
  exists bg tk pr lb bd mk,
    drawBackground_calls rand this (initialCanvas this) = Ok bg /\
    drawTakeoffZoneScales_calls fuel this (initialCanvas this) = Ok tk /\
    drawPrecisionZoneScales_calls fuel this (initialCanvas this) = Ok pr /\
    drawSimplifiedLabels_calls this (initialCanvas this) = Ok lb /\
    drawBorder_calls this (initialCanvas this) = Ok bd /\
    drawArucoMarkers_calls this (initialCanvas this) = Ok mk /\
    generate fuel rand this
    = Ok (withCanvas this
            (call (initialCanvas this)
                  (bg ++ tk ++ pr ++ lb ++ bd ++ mk))).
Proof.
  intros Hfuel U.
  apply (generate_returns fuel rand this
           takeoffPositions precisionPositions extensionPositions).
  - apply takeoff_range_binary64. lia.
  - apply precision_range_binary64. exact Hfuel.
  - apply extension_range_binary64. lia.
  - exact U.
Qed.

Lemma generate_throws_binary64
    (fuel : nat) (rand : nat -> float) (this : MatGenerator float) :
  (141 <= fuel)%nat ->
  markersUsable this = false ->
  exists bg tk pr lb bd,
    drawBackground_calls rand this (initialCanvas this) = Ok bg /\
    drawTakeoffZoneScales_calls fuel this (initialCanvas this) = Ok tk /\
    drawPrecisionZoneScales_calls fuel this (initialCanvas this) = Ok pr /\
    drawSimplifiedLabels_calls this (initialCanvas this) = Ok lb /\
    drawBorder_calls this (initialCanvas this) = Ok bd /\
    drawArucoMarkers_calls this (initialCanvas this)
    = Throw InvalidStateError /\
    generate fuel rand this = Throw InvalidStateError.
Proof.
  intros Hfuel U.
  apply (generate_throws fuel rand this
           takeoffPositions precisionPositions extensionPositions).
  - apply takeoff_range_binary64. lia.
  - apply precision_range_binary64. exact Hfuel.
  - apply extension_range_binary64. lia.
  - exact U.
Qed.

(** C8.  Every run of [generate] in which [drawImage] can use the marker
    patches (their canvas is at least one pixel wide and high) returns the
    surface on which the calls of
    the six passes follow one another in the fixed order background,
    flight-zone ticks, precision-zone ticks, labels, border, markers: the
    border comes after every tick and label, the marker pass is the last
    segment, the eight marker images are all in it and no call of another
    pass follows them. *)
Theorem generate_pass_order
    (fuel : nat) (rand : nat -> float) (this : MatGenerator float) :
  (141 <= fuel)%nat ->
  markersUsable this = true ->
  exists bg tk pr lb bd mk,
    drawBackground_calls rand this (initialCanvas this) = Ok bg /\
    drawTakeoffZoneScales_calls fuel this (initialCanvas this) = Ok tk /\
    drawPrecisionZoneScales_calls fuel this (initialCanvas this) = Ok pr /\
    drawSimplifiedLabels_calls this (initialCanvas this) = Ok lb /\
    drawBorder_calls this (initialCanvas this) = Ok bd /\
    drawArucoMarkers_calls this (initialCanvas this) = Ok mk /\
    generate fuel rand this
    = Ok (withCanvas this
            (call (initialCanvas this)
                  (bg ++ tk ++ pr ++ lb ++ bd ++ mk))) /\
    Forall (fun c => drawsImage c = false) (bg ++ tk ++ pr ++ lb ++ bd) /\
    List.length (placements mk) = 8%nat /\
    placements (bg ++ tk ++ pr ++ lb ++ bd ++ mk) = placements mk.
Proof.
  intros Hfuel U.
  destruct (generate_returns_binary64 fuel rand this Hfuel U)
    as (bg & tk & pr & lb & bd & mk & Ebg & Etk & Epr & Elb & Ebd & Emk & G).
  exists bg, tk, pr, lb, bd, mk.
  pose proof (other_passes_draw_no_image fuel rand this _ bg tk pr lb bd
                Ebg Etk Epr Elb Ebd) as NoImage.
  repeat split; try assumption.
  - exact (drawArucoMarkers_placements this _ mk Emk).
  - replace (bg ++ tk ++ pr ++ lb ++ bd ++ mk)
      with ((bg ++ tk ++ pr ++ lb ++ bd) ++ mk)
      by (rewrite <- !app_assoc; reflexivity).
    rewrite placements_app, (placements_no_image _ NoImage). reflexivity.
Qed.

Lemma generate_pass_order_witness :
  exists t, generate 141 (fun _ => 0.5%float) reference1200 = Ok t.
Proof.
  destruct (generate_pass_order 141 (fun _ => 0.5%float) reference1200
              (le_n 141) eq_refl)
    as (bg & tk & pr & lb & bd & mk & _ & _ & _ & _ & _ & _ & G & _).
  eexists. exact G.
Defined.


(** ** What [generate] reads of the configuration *)

Section ConfigurationFacts.
Context {A : Type} `{Number A}.

(** The passes read the total length and width, the scale and the colours,
    and nothing else of the generator. *)
Lemma passes_read_geometry_only (this this' : MatGenerator A) fuel rand :
  sameGeometry this this' ->
  initialCanvas this' = initialCanvas this /\
  (forall c, drawBackground_calls rand this' c = drawBackground_calls rand this c) /\
  (forall c, drawTakeoffZoneScales_calls fuel this' c
             = drawTakeoffZoneScales_calls fuel this c) /\
  (forall c, drawPrecisionZoneScales_calls fuel this' c
             = drawPrecisionZoneScales_calls fuel this c) /\
  (forall c, drawSimplifiedLabels_calls this' c = drawSimplifiedLabels_calls this c) /\
  (forall c, drawBorder_calls this' c = drawBorder_calls this c) /\
  (forall c, drawArucoMarkers_calls this' c = drawArucoMarkers_calls this c).
Proof.
  destruct this as [[L W z s a] ppm cv col].
  destruct this' as [[L' W' z' s' a'] ppm' cv' col'].
  unfold sameGeometry. cbn [config totalLength totalWidth pixelsPerMeter colors].
  intros (-> & -> & -> & ->).
  repeat split; intros; reflexivity.
Qed.

Lemma generate_same_geometry (this this' : MatGenerator A) fuel rand t :
  sameGeometry this this' ->
  generate fuel rand this = Ok t ->
  exists t', generate fuel rand this' = Ok t' /\ canvas t' = canvas t.
Proof.
  intros Same G.
  destruct (passes_read_geometry_only this this' fuel rand Same)
    as (E0 & E1 & E2 & E3 & E4 & E5 & E6).
  rewrite generate_unfold in G. rewrite generate_unfold.
  rewrite E0, E1, E2, E3, E4, E5, E6.
  repeat match type of G with
  | bind ?r _ = Ok _ => destruct r; cbn [bind] in G |- *; try discriminate
  end.
  injection G as <-. eexists. split; reflexivity.
Qed.
End ConfigurationFacts.

Lemma canvasDim_in_range {A} `{Number A} (default : Z) (v : A) :
  0 <= integerPart v <= 2147483647 -> canvasDim default v = integerPart v.
Proof.
  intros Hv. unfold canvasDim.
  rewrite Z.mod_small by (change (2 ^ 32) with 4294967296; lia).
  destruct (Z.leb_spec (integerPart v) 2147483647); [reflexivity | lia].
Qed.





(** ** The size of the surface *)

(** C7, as stated, fails: at 1202 pixels per metre the products are 3966.6
    and 1081.8; the surface is 3966 by 1081, not the rounded 3967 by
    1082. *)
Lemma generate_size_is_not_rounded :
  exists t,
    generate 141 (fun _ => 0.5%float) reference1202 = Ok t /\
    surfaceSize t = Some (3966, 1081) /\
    roundedSize reference1202 = (3967, 1082) /\
    surfaceSize t <> Some (roundedSize reference1202).
Proof.
  destruct (generate_returns_binary64 141 (fun _ => 0.5%float)
              reference1202 (le_n 141) eq_refl)
    as (bg & tk & pr & lb & bd & mk & _ & _ & _ & _ & _ & _ & G).
  eexists. split; [exact G |].
  assert (S : surfaceSize
                (withCanvas reference1202
                   (call (initialCanvas reference1202)
                         (bg ++ tk ++ pr ++ lb ++ bd ++ mk)))
              = Some (3966, 1081)) by (vm_compute; reflexivity).
  assert (R : roundedSize reference1202 = (3967, 1082))
    by (vm_compute; reflexivity).
  split; [exact S |]. split; [exact R |].
  rewrite S, R. discriminate.
Qed.

(** C7, amended.  For every generator whose marker patches [drawImage]
    can use, the surface that [generate] returns has the size that the canvas attributes make of the unrounded products
    [(totalLength + 0.3) * pixelsPerMeter] and
    [totalWidth * pixelsPerMeter]: their integer parts, the fraction
    dropped, whenever these lie between 0 and 2^31 - 1.  For the reference
    configuration at 1200 pixels per metre that is 3960 by 1080, which are
    also the rounded values. *)
Theorem generate_surface_size
    (fuel : nat) (rand : nat -> float) (this : MatGenerator float) :
  (141 <= fuel)%nat ->
  markersUsable this = true ->
  exists t,
    generate fuel rand this = Ok t /\
    surfaceSize t = Some (truncatedSize this) /\
    (let w := nmul (nadd (totalLength (config this)) (lit 0.3))
                   (pixelsPerMeter this) in
     let h := nmul (totalWidth (config this)) (pixelsPerMeter this) in
     0 <= integerPart w <= 2147483647 ->
     0 <= integerPart h <= 2147483647 ->
     surfaceSize t = Some (integerPart w, integerPart h)) /\
    truncatedSize reference1200 = (3960, 1080) /\
    roundedSize reference1200 = (3960, 1080).
Proof.
  intros Hfuel U.
  destruct (generate_returns_binary64 fuel rand this Hfuel U)
    as (bg & tk & pr & lb & bd & mk & _ & _ & _ & _ & _ & _ & G).
  eexists. split; [exact G |].
  assert (S : surfaceSize
                (withCanvas this
                   (call (initialCanvas this)
                         (bg ++ tk ++ pr ++ lb ++ bd ++ mk)))
              = Some (truncatedSize this)) by reflexivity.
  split; [exact S |]. split; [| split; vm_compute; reflexivity].
  intros w h Hw Hh. rewrite S. unfold truncatedSize. fold w h.
  rewrite (canvasDim_in_range 300 w Hw), (canvasDim_in_range 150 h Hh).
  reflexivity.
Qed.

Lemma generate_surface_size_witness :
  exists t,
    generate 141 (fun _ => 0.5%float) reference1202 = Ok t /\
    surfaceSize t = Some (truncatedSize reference1202).
Proof.
  destruct (generate_surface_size 141 (fun _ => 0.5%float) reference1202
              (le_n 141) eq_refl) as (t & G & S & _).
  exists t. split; [exact G | exact S].
Defined.

(** ** The reference scenario *)

(** C1, on the code.  At 1200 pixels per metre the reference generator
    returns a surface of 3960 by 1080 pixels with eight marker images, two
    at each of the four positions; read back, the images on the upper edge
    (the side the source calls left) carry the identifiers 0, 1, 2, 3 and
    those on the lower edge 4, 5, 6, 7, while the exported table
    [ARUCO_POSITIONS] assigns 8, 9, 10, 11 to the left and 0, 1, 2, 3 to
    the right. *)
Theorem generate_reference_markers (fuel : nat) (rand : nat -> float) :
  (141 <= fuel)%nat ->
  exists t c,
    generate fuel rand reference1200 = Ok t /\
    canvas t = Some c /\
    width c = 3960 /\
    height c = 1080 /\
    placements (calls c)
    = [ (Some 0, 312%float, 42%float); (Some 4, 312%float, 942%float);
        (Some 1, 1512%float, 42%float); (Some 5, 1512%float, 942%float);
        (Some 2, 2472%float, 42%float); (Some 6, 2472%float, 942%float);
        (Some 3, 3191.9999999999995%float, 42%float);
        (Some 7, 3191.9999999999995%float, 942%float) ] /\
    map (fun p => (ap_id p, ap_side p)) ARUCO_POSITIONS
    = [ (8, left); (9, left); (10, left); (11, left);
        (0, right); (1, right); (2, right); (3, right) ].
Proof.
  intros Hfuel.
  destruct (generate_returns_binary64 fuel rand reference1200 Hfuel eq_refl)
    as (bg & tk & pr & lb & bd & mk & Ebg & Etk & Epr & Elb & Ebd & Emk & G).
  eexists. eexists. split; [exact G |]. split; [reflexivity |].
  split; [vm_compute; reflexivity |]. split; [vm_compute; reflexivity |].
  split; [| reflexivity].
  rewrite (surface_placements _ _ _ _ _ _ _ _ _ Ebg Etk Epr Elb Ebd).
  vm_compute in Emk. injection Emk as <-.
  vm_compute. reflexivity.
Qed.

Lemma generate_reference_markers_witness :
  exists t c,
    generate 141 (fun _ => 0.5%float) reference1200 = Ok t /\
    canvas t = Some c /\
    map (fun p => fst (fst p)) (placements (calls c))
    = [ Some 0; Some 4; Some 1; Some 5; Some 2; Some 6; Some 3; Some 7 ].
Proof.
  destruct (generate_reference_markers 141 (fun _ => 0.5%float) (le_n 141))
    as (t & c & G & C & _ & _ & P & _).
  exists t, c. split; [exact G |]. split; [exact C |].
  rewrite P. reflexivity.
Defined.


(** ** The pixels of a marker patch *)

Section PatchGeometry.
Variables s b : Z.
Hypothesis s_pos : 0 < s.
Hypothesis b_nonneg : 0 <= b.

Local Abbreviation S := (inject_Z s).
Local Abbreviation B := (inject_Z b).
Local Abbreviation cell := (ndiv (inject_Z s) (lit 6)).

(** The cell width [s / 6] is positive. *)
Lemma cell_positive : (0 < cell)%Q.
Proof.
  cbn [ndiv lit exact]. apply Qlt_shift_div_l; [reflexivity |].
  rewrite Qmult_0_l. change 0%Q with (inject_Z 0). rewrite <- Zlt_Qlt. exact s_pos.
Qed.

(** A point lies at or beyond the [m]-th grid line exactly when its grid
    index is at least [m]. *)
Lemma grid_threshold (a : Q) (m : Z) (x : Q) :
  (a == B + inject_Z m * cell)%Q ->
  Qle_bool a x = (m <=? gridIndex S B x).
Proof.
  intros Ea. pose proof cell_positive as Hc.
  apply Bool.eq_iff_eq_true. rewrite Qle_bool_iff, Z.leb_le, Ea.
  unfold gridIndex. change (inject_Z s / 6)%Q with cell.
  split; intros Hle.
  - rewrite <- (Qfloor_Z m). apply Qfloor_resp_le.
    apply Qle_shift_div_l; [exact Hc | lra].
  - assert (H1 : (inject_Z m <= (x - B) / cell)%Q).
    { eapply Qle_trans; [| apply Qfloor_le]. rewrite <- Zle_Qle. exact Hle. }
    apply (Qmult_le_r _ _ cell Hc) in H1.
    assert (H2 : ((x - B) / cell * cell == x - B)%Q) by (field; lra).
    rewrite H2 in H1. lra.
Qed.

Local Abbreviation k := (gridIndex (inject_Z s) (inject_Z b)).

(** The quiet ring is the band of width [B] around the core. *)
Lemma regionOf_quiet (x y : Q) :
  regionOf S B x y = QuietRing <->
  (x < B \/ B + S <= x \/ y < B \/ B + S <= y)%Q.
Proof.
  assert (T0 : forall z, Qle_bool B z = (0 <=? k z)).
  { intros z. apply grid_threshold. change (inject_Z 0) with 0%Q. ring. }
  assert (T6 : forall z, Qle_bool (B + S) z = (6 <=? k z)).
  { intros z. apply grid_threshold. cbn [ndiv lit exact].
    change (inject_Z 6) with 6%Q. field. }
  assert (Lo : forall z, (z < B)%Q <-> k z < 0).
  { intros z. rewrite <- Z.leb_gt, <- T0. split.
    - intros Hz. destruct (Qle_bool B z) eqn:E; [| reflexivity].
      apply Qle_bool_iff in E. lra.
    - intros E. apply Qnot_le_lt. intros Hle.
      apply Qle_bool_iff in Hle. congruence. }
  assert (Hi : forall z, (B + S <= z)%Q <-> 5 < k z).
  { intros z. rewrite <- Qle_bool_iff, T6, Z.leb_le. lia. }
  rewrite (Lo x), (Lo y), (Hi x), (Hi y). unfold regionOf.
  generalize (k x) (k y). intros kx ky.
  destruct (Z.ltb_spec kx 0); destruct (Z.ltb_spec 5 kx);
    destruct (Z.ltb_spec ky 0); destruct (Z.ltb_spec 5 ky);
    cbn [orb]; try (split; [lia | reflexivity]);
    (split; [| lia]);
    destruct ((kx =? 0) || (kx =? 5) || (ky =? 0) || (ky =? 5)); discriminate.
Qed.
End PatchGeometry.

Lemma zrange_In (a : Z) (n : nat) (z : Z) :
  a <= z < a + Z.of_nat n -> In z (zrange a n).
Proof.
  intros Hz. unfold zrange. apply in_map_iff.
  exists (Z.to_nat (z - a)). split; [lia | apply in_seq; lia].
Qed.

Lemma sameCovers_eq (l l' : list Cover) : sameCovers l l' = true -> l = l'.
Proof.
  revert l'. induction l as [| a l IH]; intros [| b l']; try discriminate.
  - reflexivity.
  - cbn [sameCovers]. intros E. apply andb_prop in E. destruct E as [Eab El].
    rewrite (IH l' El). destruct a, b; try discriminate; reflexivity.
Qed.

(** In binary64, for the core sizes 6, 12, ..., 192 and the borders 0 to
    16, every edge of the rectangles of a patch falls between two
    pixels. *)
Lemma patches_aligned_binary64 :
  forallb (fun c => forallb (patchAligned c) (zrange 0 17)) (zrange 1 32)
  = true.
Proof. vm_compute. reflexivity. Qed.

Lemma patchAligned_spec (c b : Z) :
  1 <= c <= 32 -> 0 <= b <= 16 ->
  canvasDim 300 (nadd (ofZ (6 * c)) (nmul (ofZ b) (lit 2 : float)))
  = 6 * c + 2 * b /\
  canvasDim 150 (nadd (ofZ (6 * c)) (nmul (ofZ b) (lit 2 : float)))
  = 6 * c + 2 * b /\
  forall i, 0 <= i < 6 * c + 2 * b ->
    map (fun span => spanCover (fst span) (snd span) i)
        (patchSpans (ofZ (6 * c) : float) (ofZ b))
    = expectedCovers
        (gridIndex (inject_Z (6 * c)) (inject_Z b) (inject_Z i + (1 # 2))).
Proof.
  intros Hc Hb.
  pose proof patches_aligned_binary64 as All.
  rewrite forallb_forall in All.
  specialize (All c (zrange_In 1 32 c ltac:(lia))).
  rewrite forallb_forall in All.
  specialize (All b (zrange_In 0 17 b ltac:(lia))).
  unfold patchAligned in All.
  apply andb_prop in All. destruct All as [All Cols].
  apply andb_prop in All. destruct All as [W Hh].
  apply Z.eqb_eq in W. apply Z.eqb_eq in Hh.
  split; [exact W |]. split; [exact Hh |].
  intros i Hi. rewrite forallb_forall in Cols.
  apply sameCovers_eq. apply Cols. apply zrange_In. lia.
Qed.

Section PatchPixels.
Context {A : Type} `{Number A}.

Lemma opaque_cell (dark : bool) :
  opaque (if dark then "#000000" else "#FFFFFF") = true.
Proof. destruct dark; reflexivity. Qed.

Ltac settle v :=
  repeat match goal with
  | |- context [(?a <=? v)] => destruct (Z.leb_spec a v); try lia
  | |- context [(v <=? ?a)] => destruct (Z.leb_spec v a); try lia
  | |- context [(v <? ?a)] => destruct (Z.ltb_spec v a); try lia
  | |- context [(?a <? v)] => destruct (Z.ltb_spec a v); try lia
  | |- context [(v =? ?a)] => destruct (Z.eqb_spec v a); try lia
  end.

(** The pixel of a patch, from the way the seven extents lie over its
    column and over its row. *)
Lemma patch_pixel (pattern : list (list Z)) (size borderSize : A)
    (i j gi gj : Z) :
  map (fun span => spanCover (fst span) (snd span) i)
      (patchSpans size borderSize) = expectedCovers gi ->
  map (fun span => spanCover (fst span) (snd span) j)
      (patchSpans size borderSize) = expectedCovers gj ->
  paintPixel
    ([ SetFillStyle "#FFFFFF";
       FillRect (lit 0) (lit 0) (nadd size (nmul borderSize (lit 2)))
                (nadd size (nmul borderSize (lit 2)));
       SetFillStyle "#000000";
       FillRect borderSize borderSize size size;
       SetFillStyle "#FFFFFF";
       FillRect (nadd borderSize (ndiv size (lit 6)))
                (nadd borderSize (ndiv size (lit 6)))
                (nsub size (nmul (ndiv size (lit 6)) (lit 2)))
                (nsub size (nmul (ndiv size (lit 6)) (lit 2))) ]
     ++ flat_map (fun row =>
          flat_map (fun col => drawCell pattern size borderSize row col)
                   [0; 1; 2; 3])
          [0; 1; 2; 3])
    "#000000" Untouched i j
  = Solid (regionColour pattern
             (if (gi <? 0) || (5 <? gi) || (gj <? 0) || (5 <? gj)
              then QuietRing
              else if (gi =? 0) || (gi =? 5) || (gj =? 0) || (gj =? 5)
                   then BorderRing
                   else DataCell (gj - 1) (gi - 1))).
Proof.
  intros Ei Ej.
  cbn [patchSpans map fst snd] in Ei, Ej. unfold expectedCovers in Ei, Ej.
  cbn [app flat_map drawCell paintPixel]. unfold rectCover.
  change (0 + 1) with 1 in *. change (1 + 1) with 2 in *.
  change (2 + 1) with 3 in *. change (3 + 1) with 4 in *.
  injection Ei as I0 I1 I2 I3 I4 I5 I6.
  injection Ej as J0 J1 J2 J3 J4 J5 J6.
  rewrite I0, I1, I2, I3, I4, I5, I6, J0, J1, J2, J3, J4, J5, J6.
  rewrite !opaque_cell.
  assert (Cx : gi < 0 \/ gi = 0 \/ gi = 1 \/ gi = 2 \/ gi = 3 \/ gi = 4
               \/ gi = 5 \/ 6 <= gi) by lia.
  assert (Cy : gj < 0 \/ gj = 0 \/ gj = 1 \/ gj = 2 \/ gj = 3 \/ gj = 4
               \/ gj = 5 \/ 6 <= gj) by lia.
  destruct Cx as [Cx | [Cx | [Cx | [Cx | [Cx | [Cx | [Cx | Cx]]]]]]];
    try subst gi;
    destruct Cy as [Cy | [Cy | [Cy | [Cy | [Cy | [Cy | [Cy | Cy]]]]]]];
    try subst gj;
    try settle gi; try settle gj; reflexivity.
Qed.
End PatchPixels.





(** ** The coordinate transform *)

(** *** Rounding to nearest in binary64 *)

Module RoundingFacts.
Import SpecFloat Rounding.

Local Abbreviation prec := FloatOps.prec.
Local Abbreviation emax := FloatOps.emax.

Lemma shr_1_shifted (M k : Z) mrs :
  0 <= k -> shifted M k mrs -> shifted M (k + 1) (shr_1 mrs).
Proof.
  intros Hk (Hm & u & Hu & E & S).
  destruct mrs as [m r s]. cbn [shr_m shr_r shr_s] in *.
  assert (P : 2 ^ (k + 1) = 2 * 2 ^ k) by (rewrite Z.pow_add_r by lia; lia).
  assert (Pk : 0 < 2 ^ k) by (apply Z.pow_pos_nonneg; lia).
  assert (Sx : (r || s = true) <-> b2z r * 2 ^ k + u <> 0).
  { destruct r; cbn [orb b2z].
    - split; [intros _; lia | reflexivity].
    - rewrite S. split; intros; lia. }
  unfold shifted.
  destruct m as [| [p | p |] | p]; try lia; cbn [shr_1 shr_m shr_r shr_s];
    (split; [lia |]); exists (b2z r * 2 ^ k + u);
    (split; [destruct r; cbn [b2z]; lia |]); (split; [| exact Sx]);
    rewrite P; cbn [b2z]; try rewrite (Pos2Z.inj_xI p) in E;
    try rewrite (Pos2Z.inj_xO p) in E; lia.
Qed.

Lemma iter_shr_shifted (p : positive) :
  forall M k mrs, 0 <= k -> shifted M k mrs ->
    shifted M (k + Zpos p) (iter_pos shr_1 p mrs).
Proof.
  induction p as [p IH | p IH |]; intros M k mrs Hk Hs; cbn [iter_pos].
  - replace (k + Zpos p~1) with (k + 1 + Zpos p + Zpos p) by lia.
    apply IH; [lia |]. apply IH; [lia |]. apply shr_1_shifted; assumption.
  - replace (k + Zpos p~0) with (k + Zpos p + Zpos p) by lia.
    apply IH; [lia |]. apply IH; assumption.
  - apply shr_1_shifted; assumption.
Qed.

Lemma digits2_pos_bounds (p : positive) :
  2 ^ (Zpos (digits2_pos p) - 1) <= Zpos p < 2 ^ Zpos (digits2_pos p).
Proof.
  induction p as [p IH | p IH |]; cbn [digits2_pos].
  - rewrite Pos2Z.inj_succ.
    replace (Z.succ (Zpos (digits2_pos p)) - 1) with (Z.succ (Zpos (digits2_pos p) - 1)) by lia.
    rewrite !Z.pow_succ_r by lia. lia.
  - rewrite Pos2Z.inj_succ.
    replace (Z.succ (Zpos (digits2_pos p)) - 1) with (Z.succ (Zpos (digits2_pos p) - 1)) by lia.
    rewrite !Z.pow_succ_r by lia. lia.
  - cbn. lia.
Qed.

(** The first shift of [binary_round_aux] and the rounding. *)
Lemma shr_fexp_shifted (p : positive) (e : Z) :
  let M := Zpos p in
  let e' := Z.max e (fexp FloatOps.prec FloatOps.emax (Zpos (digits2_pos p) + e)) in
  exists mrs, shr_fexp FloatOps.prec FloatOps.emax M e loc_Exact = (mrs, e') /\
              shifted M (e' - e) mrs.
Proof.
  intros M e'. unfold shr_fexp. cbn [Zdigits2 M shr_record_of_loc].
  set (f := fexp FloatOps.prec FloatOps.emax (Zpos (digits2_pos p) + e)) in *.
  assert (Init : shifted (Zpos p) 0 {| shr_m := Zpos p; shr_r := false; shr_s := false |}).
  { split; [cbn; lia |]. exists 0. cbn [shr_m shr_r shr_s b2z].
    split; [cbn; lia |]. split; [cbn; lia |]. split; [discriminate | lia]. }
  unfold shr. destruct (f - e) as [| n | n] eqn:N.
  - eexists. split; [replace e' with e by lia; reflexivity |].
    replace (e' - e) with 0 by lia. exact Init.
  - eexists. split; [replace e' with (e + Zpos n) by lia; reflexivity |].
    replace (e' - e) with (0 + Zpos n) by lia.
    apply iter_shr_shifted; [lia | exact Init].
  - eexists. split; [replace e' with e by lia; reflexivity |].
    replace (e' - e) with 0 by lia. exact Init.
Qed.

Lemma round_shifted (M k : Z) mrs :
  0 <= k -> shifted M k mrs ->
  let q := round_nearest_even (shr_m mrs) (loc_of_shr_record mrs) in
  shr_m mrs <= q <= shr_m mrs + 1 /\
  - 2 ^ k <= 2 * M - 2 * q * 2 ^ k <= 2 ^ k /\
  (k = 0 -> q = M).
Proof.
  intros Hk (Hm & u & Hu & E & S) q.
  destruct mrs as [m r s]. cbn [shr_m shr_r shr_s] in *.
  assert (Pk : 0 < 2 ^ k) by (apply Z.pow_pos_nonneg; lia).
  assert (K0 : k = 0 -> u = 0 /\ 2 ^ k = 1) by (intros ->; cbn in Hu; cbn; lia).
  assert (U : s = false -> u = 0).
  { intros ->. destruct (Z.eq_dec u 0) as [U | U]; [exact U |].
    apply S in U. discriminate. }
  clear S. subst q.
  destruct r, s; cbn [loc_of_shr_record round_nearest_even b2z] in *;
    try (specialize (U eq_refl); subst u); try clear U;
    try destruct (Z.even m);
    (split; [lia |]); (split; [clear K0; lia |]);
    intros K; destruct (K0 K) as [K1 K2]; rewrite K2 in E; lia.
Qed.

Lemma fexp_value (x : Z) : fexp prec emax x = Z.max (x - 53) (-1074).
Proof. reflexivity. Qed.

Lemma digits2_pos_le (p : positive) (n : Z) :
  Zpos p < 2 ^ n -> Zpos (digits2_pos p) <= n.
Proof.
  intros Hp. destruct (digits2_pos_bounds p) as [Lo _].
  destruct (Z_le_gt_dec (Zpos (digits2_pos p)) n) as [L | G]; [exact L |].
  assert (2 ^ n <= 2 ^ (Zpos (digits2_pos p) - 1))
    by (apply Z.pow_le_mono_r; lia).
  lia.
Qed.

(** The second shift of [binary_round_aux]: it only undoes a carry. *)
Lemma second_shift (q e' : Z) :
  0 <= q <= 2 ^ 53 -> -1074 <= e' ->
  exists mrs e'',
    shr_fexp prec emax q e' loc_Exact = (mrs, e'') /\
    0 <= shr_m mrs /\ q = shr_m mrs * 2 ^ (e'' - e') /\ e' <= e'' <= e' + 1.
Proof.
  intros Hq He. unfold shr_fexp. rewrite fexp_value.
  destruct (Z.eq_dec q (2 ^ 53)) as [-> | Hne].
  - change (Zdigits2 (2 ^ 53)) with 54.
    replace (Z.max (54 + e' - 53) (-1074) - e') with 1 by lia.
    change (2 ^ 53) with 9007199254740992.
    cbn [shr iter_pos shr_1 shr_record_of_loc].
    eexists. eexists. split; [reflexivity |]. cbn [shr_m].
    split; [lia |]. split; [| lia].
    replace (e' + 1 - e') with 1 by lia. reflexivity.
  - assert (N : Z.max (Zdigits2 q + e' - 53) (-1074) - e' <= 0).
    { destruct q as [| p | p]; cbn [Zdigits2]; [lia | | lia].
      pose proof (digits2_pos_le p 53 ltac:(lia)). lia. }
    unfold shr.
    destruct (Z.max (Zdigits2 q + e' - 53) (-1074) - e') eqn:E; try lia;
      (eexists; eexists; split; [reflexivity |]);
      destruct q; cbn [shr_record_of_loc shr_m]; rewrite Z.sub_diag;
      cbn; lia.
Qed.

(** [binary_round_aux] on a positive mantissa, in integers: [q] is the
    mantissa rounded at the exponent [e'], within half a unit of the exact
    one, and the result holds [q * 2 ^ e']. *)
Lemma binary_round_aux_spec (s : bool) (p : positive) (e : Z) :
  e <= 970 -> Zpos (digits2_pos p) + e <= 1023 ->
  let e' := Z.max e (fexp prec emax (Zpos (digits2_pos p) + e)) in
  exists q m e'',
    0 <= m /\ q = m * 2 ^ (e'' - e') /\ e' <= e'' <= e' + 1 /\
    - 2 ^ (e' - e) <= 2 * Zpos p - 2 * q * 2 ^ (e' - e) <= 2 ^ (e' - e) /\
    (e' = e -> q = Zpos p) /\
    binary_round_aux prec emax s (Zpos p) e loc_Exact
    = match m with
      | Z0 => S754_zero s
      | Zpos mm => S754_finite s mm e''
      | Zneg _ => S754_nan
      end.
Proof.
  intros He Hd e'.
  destruct (shr_fexp_shifted p e) as (mrs & E1 & Sh). fold e' in E1, Sh.
  assert (Hk : 0 <= e' - e) by (unfold e'; lia).
  destruct (round_shifted _ _ _ Hk Sh) as (Q1 & Q2 & Q3).
  set (q := round_nearest_even (shr_m mrs) (loc_of_shr_record mrs)) in *.
  assert (Hq : 0 <= q <= 2 ^ 53).
  { destruct Sh as (Hm & u & Hu & E & _).
    split; [lia |].
    assert (Pk : 0 < 2 ^ (e' - e)) by (apply Z.pow_pos_nonneg; lia).
    destruct (digits2_pos_bounds p) as [_ Hi].
    assert (Le : 2 ^ Zpos (digits2_pos p) <= 2 ^ (e' - e + 53)).
    { apply Z.pow_le_mono_r; [lia |]. unfold e'. rewrite fexp_value. lia. }
    rewrite Z.pow_add_r in Le by lia.
    assert (shr_m mrs * 2 ^ (e' - e) < 2 ^ 53 * 2 ^ (e' - e)).
    { destruct (shr_r mrs); cbn [b2z] in E; nia. }
    assert (shr_m mrs < 2 ^ 53).
    { apply (Z.mul_lt_mono_pos_r (2 ^ (e' - e))); assumption. }
    lia. }
  assert (He' : -1074 <= e') by (unfold e'; rewrite fexp_value; lia).
  destruct (second_shift q e' Hq He') as (mrs2 & e2 & E2 & M2 & V2 & B2).
  exists q, (shr_m mrs2), e2.
  split; [exact M2 |]. split; [exact V2 |]. split; [exact B2 |].
  split; [exact Q2 |]. split; [intros K; apply Q3; lia |].
  unfold binary_round_aux. rewrite E1. fold q. rewrite E2.
  destruct (shr_m mrs2) as [| mm | mm]; try reflexivity.
  replace (e2 <=? emax - prec) with true; [reflexivity |].
  symmetry. apply Z.leb_le. change (emax - prec) with 971.
  unfold e' in B2. rewrite fexp_value in B2. lia.
Qed.

Lemma pow2_pos (e : Z) : (0 < pow2 e)%Q.
Proof. apply Qpower_0_lt. reflexivity. Qed.

Lemma pow2_add (a b : Z) : (pow2 (a + b) == pow2 a * pow2 b)%Q.
Proof. apply Qpower_plus. discriminate. Qed.

Lemma pow2_Z (k : Z) : 0 <= k -> (inject_Z (2 ^ k) == pow2 k)%Q.
Proof. intros Hk. apply (Zpower_Qpower 2 k Hk). Qed.

Lemma pow2_le (a b : Z) : a <= b -> (pow2 a <= pow2 b)%Q.
Proof. intros H. apply Qpower_le_compat_l; [exact H | discriminate]. Qed.

Lemma pow2_lt_inv (a b : Z) : (pow2 a < pow2 b)%Q -> a < b.
Proof. intros H. apply (Qpower_lt_compat_l_inv 2 a b H). reflexivity. Qed.

Lemma pow2_half (e : Z) : (pow2 e == 2 * pow2 (e - 1))%Q.
Proof.
  replace e with (1 + (e - 1)) at 1 by lia. rewrite pow2_add. reflexivity.
Qed.

Lemma cond_Zopp_Q (s : bool) (z : Z) :
  (inject_Z (cond_Zopp s z) == (if s then - 1 else 1) * inject_Z z)%Q.
Proof.
  destruct s; cbn [cond_Zopp]; [rewrite inject_Z_opp |]; ring.
Qed.

(** The value that [binary_round_aux] returns is within half a unit in
    the last place of the exact one. *)
Lemma round_value (s : bool) (p : positive) (e : Z) :
  e <= 970 -> Zpos (digits2_pos p) + e <= 1023 ->
  exists vz,
    SFvalue (binary_round_aux prec emax s (Zpos p) e loc_Exact) = Some vz /\
    (Qabs (vz - inject_Z (cond_Zopp s (Zpos p)) * pow2 e)
     <= inject_Z (Zpos p) * pow2 e * pow2 (-53) + pow2 (-1075))%Q.
Proof.
  intros He Hd.
  destruct (binary_round_aux_spec s p e He Hd)
    as (q & m & e2 & Hm & Vq & Be & Zerr & Exact & R).
  set (d := Zpos (digits2_pos p)) in *.
  set (e' := Z.max e (fexp prec emax (d + e))) in *.
  assert (Hk : 0 <= e' - e) by (unfold e'; lia).
  set (k := e' - e) in *.
  assert (V : exists vz,
            SFvalue (binary_round_aux prec emax s (Zpos p) e loc_Exact)
            = Some vz /\
            (vz == (if s then - 1 else 1) * inject_Z q * pow2 k * pow2 e)%Q).
  { rewrite R. destruct m as [| mm | mm]; [| | lia].
    - eexists. split; [reflexivity |]. rewrite Vq. cbn. ring.
    - eexists. split; [reflexivity |].
      rewrite cond_Zopp_Q, Vq, inject_Z_mult, pow2_Z by lia.
      replace e2 with ((e2 - e') + (k + e)) at 1 by lia.
      rewrite !pow2_add. ring. }
  destruct V as (vz & Ez & Vz). exists vz. split; [exact Ez |].
  rewrite Vz, cond_Zopp_Q.
  pose proof (pow2_pos e) as Pe. pose proof (pow2_pos k) as Pk.
  pose proof (pow2_pos (-53)) as Pu. pose proof (pow2_pos (-1075)) as Pn.
  assert (PA : (0 < inject_Z (Zpos p))%Q)
    by (change 0%Q with (inject_Z 0); rewrite <- Zlt_Qlt; lia).
  (* the integer bound, in Q *)
  assert (ZQ : (- pow2 k <= 2 * inject_Z (Zpos p) - 2 * inject_Z q * pow2 k
                <= pow2 k)%Q).
  { rewrite <- (pow2_Z k Hk).
    assert (Z1 : 2 * q * 2 ^ k <= 2 * Zpos p + 2 ^ k) by lia.
    assert (Z2 : 2 * Zpos p <= 2 ^ k + 2 * q * 2 ^ k) by lia.
    rewrite Zle_Qle in Z1, Z2.
    rewrite ?inject_Z_plus, ?inject_Z_mult in Z1.
    rewrite ?inject_Z_plus, ?inject_Z_mult in Z2.
    change (inject_Z 2) with 2%Q in *. split; lra. }
  (* half a unit is within the relative bound *)
  assert (Half : k <> 0 ->
            (pow2 k * pow2 e <= 2 * (inject_Z (Zpos p) * pow2 e * pow2 (-53)
                                     + pow2 (-1075)))%Q).
  { intros Knz. rewrite <- pow2_add.
    assert (C : k + e = d + e - 53 \/ k + e = -1074).
    { unfold k, e' in *. rewrite fexp_value in *. lia. }
    destruct C as [C | C]; rewrite C.
    - replace (d + e - 53) with (1 + ((d - 1) + (e + -53))) by lia.
      rewrite (pow2_add 1), (pow2_add (d - 1)), (pow2_add e).
      change (pow2 1) with 2%Q.
      assert (Lo : (pow2 (d - 1) <= inject_Z (Zpos p))%Q).
      { rewrite <- pow2_Z by (unfold d; lia). rewrite <- Zle_Qle.
        apply digits2_pos_bounds. }
      assert (0 < pow2 e * pow2 (-53))%Q by (apply Qmult_lt_0_compat; assumption).
      assert (pow2 (d - 1) * (pow2 e * pow2 (-53))
              <= inject_Z (Zpos p) * (pow2 e * pow2 (-53)))%Q
        by (apply Qmult_le_compat_r; [exact Lo | apply Qlt_le_weak; assumption]).
      lra.
    - rewrite (pow2_half (-1074)). change (-1074 - 1) with (-1075).
      assert (0 < inject_Z (Zpos p) * pow2 e * pow2 (-53))%Q
        by (repeat apply Qmult_lt_0_compat; assumption).
      lra. }
  destruct (Z.eq_dec k 0) as [K0 | Knz].
  - rewrite (Exact ltac:(lia)). rewrite K0. change (pow2 0) with 1%Q.
    assert (0 < inject_Z (Zpos p) * pow2 e * pow2 (-53))%Q
      by (repeat apply Qmult_lt_0_compat; assumption).
    match goal with |- (Qabs ?x <= _)%Q => assert (Z0 : (x == 0)%Q) by ring end.
    rewrite Z0. cbn [Qabs Z.abs Qnum Qden]. lra.
  - specialize (Half Knz).
    set (A := inject_Z (Zpos p)) in *. set (Qq := inject_Z q) in *.
    set (D := (Qq * pow2 k - A)%Q).
    assert (HD : (- (pow2 k * (1 # 2)) <= D <= pow2 k * (1 # 2))%Q)
      by (unfold D; lra).
    assert (HDe : (- (pow2 k * (1 # 2) * pow2 e) <= D * pow2 e <= pow2 k * (1 # 2) * pow2 e)%Q).
    { destruct HD as [D1 D2]. split.
      - setoid_replace (- (pow2 k * (1 # 2) * pow2 e))%Q
          with ((- (pow2 k * (1 # 2))) * pow2 e)%Q by ring.
        apply Qmult_le_compat_r; [exact D1 | apply Qlt_le_weak; exact Pe].
      - apply Qmult_le_compat_r; [exact D2 | apply Qlt_le_weak; exact Pe]. }
    apply Qabs_Qle_condition.
    destruct s.
    + setoid_replace (-1 * Qq * pow2 k * pow2 e - -1 * A * pow2 e)%Q
        with (- (D * pow2 e))%Q by (unfold D; ring).
      lra.
    + setoid_replace (1 * Qq * pow2 k * pow2 e - 1 * A * pow2 e)%Q
        with (D * pow2 e)%Q by (unfold D; ring).
      lra.
Qed.

#[export] Instance near_proper : Proper (Qeq ==> Qeq ==> iff) near.
Proof. intros v v' Ev z z' Ez. unfold near. rewrite Ev, Ez. reflexivity. Qed.

Lemma near_exact (v vz : Q) : (vz == v)%Q -> near v vz.
Proof.
  intros E. unfold near. rewrite E.
  setoid_replace (v - v)%Q with 0%Q by ring.
  pose proof (Qabs_nonneg v). pose proof (pow2_pos (-53)).
  pose proof (pow2_pos (-1075)).
  assert (0 <= Qabs v * pow2 (-53))%Q
    by (apply Qmult_le_0_compat; [assumption | apply Qlt_le_weak; assumption]).
  cbn [Qabs Z.abs Qnum Qden]. lra.
Qed.

Lemma iter_xO (d : positive) (m : positive) :
  Zpos (Pos.iter xO m d) = Zpos m * 2 ^ Zpos d /\
  Zpos (digits2_pos (Pos.iter xO m d)) = Zpos (digits2_pos m) + Zpos d.
Proof.
  induction d as [| d IH] using Pos.peano_ind.
  - cbn [Pos.iter digits2_pos]. rewrite Pos2Z.inj_succ. split; lia.
  - rewrite Pos.iter_succ. cbn [digits2_pos].
    rewrite !Pos2Z.inj_succ, Z.pow_succ_r by lia.
    destruct IH as [IH1 IH2]. rewrite Pos2Z.inj_xO, IH1, IH2. split; lia.
Qed.

Lemma shl_align_spec (mx : positive) (ex ex' : Z) :
  exists mz ez,
    shl_align mx ex ex' = (mz, ez) /\
    ez = Z.min ex ex' /\
    Zpos mz = Zpos mx * 2 ^ (ex - ez) /\
    Zpos (digits2_pos mz) = Zpos (digits2_pos mx) + (ex - ez).
Proof.
  unfold shl_align. destruct (ex' - ex) as [| d | d] eqn:E.
  - exists mx, ex. split; [reflexivity |]. split; [lia |].
    rewrite Z.sub_diag. split; [cbn; lia | lia].
  - exists mx, ex. split; [reflexivity |]. split; [lia |].
    rewrite Z.sub_diag. split; [cbn; lia | lia].
  - exists (Pos.iter xO mx d), ex'. split; [reflexivity |]. split; [lia |].
    replace (ex - ex') with (Zpos d) by lia. apply iter_xO.
Qed.

Lemma digits_bound (p : positive) (e B : Z) :
  (inject_Z (Zpos p) * pow2 e < pow2 B)%Q ->
  Zpos (digits2_pos p) + e <= B.
Proof.
  intros H.
  assert (L : (pow2 (Zpos (digits2_pos p) - 1 + e) < pow2 B)%Q).
  { eapply Qle_lt_trans; [| exact H]. rewrite pow2_add.
    apply Qmult_le_compat_r; [| apply Qlt_le_weak; apply pow2_pos].
    rewrite <- pow2_Z by lia. rewrite <- Zle_Qle. apply digits2_pos_bounds. }
  apply pow2_lt_inv in L. lia.
Qed.

Lemma digits_product (p q : positive) :
  Zpos (digits2_pos p) + Zpos (digits2_pos q) - 1
  <= Zpos (digits2_pos (p * q)).
Proof.
  destruct (digits2_pos_bounds p) as [Lp _].
  destruct (digits2_pos_bounds q) as [Lq _].
  destruct (digits2_pos_bounds (p * q)) as [_ Hpq].
  set (dp := Zpos (digits2_pos p)) in *. set (dq := Zpos (digits2_pos q)) in *.
  set (d := Zpos (digits2_pos (p * q))) in *.
  assert (2 ^ (dp - 1) * 2 ^ (dq - 1) <= Zpos p * Zpos q)
    by (apply Z.mul_le_mono_nonneg; try lia; apply Z.pow_nonneg; lia).
  rewrite <- Z.pow_add_r in H by (unfold dp, dq; lia).
  rewrite Pos2Z.inj_mul in Hpq.
  assert (L : 2 ^ (dp - 1 + (dq - 1)) < 2 ^ d) by lia.
  apply Z.pow_lt_mono_r_iff in L; [lia | lia | unfold d; lia].
Qed.

(** [binary_round]: the mantissa is first aligned, which changes no
    value. *)
Lemma binary_round_value (s : bool) (mx : positive) (ex : Z) :
  Zpos (digits2_pos mx) + ex <= 1023 ->
  exists vz,
    SFvalue (binary_round prec emax s mx ex) = Some vz /\
    near (inject_Z (cond_Zopp s (Zpos mx)) * pow2 ex) vz.
Proof.
  intros Hd. unfold binary_round.
  destruct (shl_align_spec mx ex (fexp prec emax (Zpos (digits2_pos mx) + ex)))
    as (mz & ez & -> & Ez & Mz & Dz).
  rewrite fexp_value in Ez.
  destruct (round_value s mz ez) as (vz & V & N); [lia | lia |].
  exists vz. split; [exact V |].
  assert (Same : (inject_Z (Zpos mz) * pow2 ez
                  == inject_Z (Zpos mx) * pow2 ex)%Q).
  { rewrite Mz, inject_Z_mult, pow2_Z by lia.
    replace ex with ((ex - ez) + ez) at 2 by lia. rewrite pow2_add. ring. }
  unfold near.
  assert (Sg : forall z, (inject_Z (cond_Zopp s (Zpos z)) * pow2 ez
                  == (if s then - 1 else 1) * (inject_Z (Zpos z) * pow2 ez))%Q)
    by (intros z; rewrite cond_Zopp_Q; ring).
  assert (Sg' : (inject_Z (cond_Zopp s (Zpos mx)) * pow2 ex
                  == (if s then - 1 else 1) * (inject_Z (Zpos mx) * pow2 ex))%Q)
    by (rewrite cond_Zopp_Q; ring).
  rewrite Sg in N. rewrite Same in N. rewrite Sg'.
  assert (Pos : (0 < inject_Z (Zpos mx) * pow2 ex)%Q).
  { apply Qmult_lt_0_compat; [| apply pow2_pos].
    change 0%Q with (inject_Z 0). rewrite <- Zlt_Qlt. lia. }
  assert (Ab : (Qabs ((if s then - 1 else 1) * (inject_Z (Zpos mx) * pow2 ex))
                == inject_Z (Zpos mx) * pow2 ex)%Q).
  { rewrite Qabs_Qmult. rewrite (Qabs_pos (inject_Z (Zpos mx) * pow2 ex))
      by (apply Qlt_le_weak; exact Pos).
    destruct s; cbn [Qabs Z.abs Qnum Qden Qopp Z.opp]; ring. }
  rewrite Ab. exact N.
Qed.

Lemma normalize_value (m e : Z) :
  (Qabs (inject_Z m * pow2 e) < pow2 1023)%Q ->
  exists vz,
    SFvalue (binary_normalize prec emax m e false) = Some vz /\
    near (inject_Z m * pow2 e) vz.
Proof.
  intros Hb. destruct m as [| p | p]; cbn [binary_normalize].
  - exists 0%Q. split; [reflexivity |]. apply near_exact. cbn. ring.
  - apply (binary_round_value false p e).
    apply digits_bound. rewrite Qabs_pos in Hb; [exact Hb |].
    apply Qmult_le_0_compat; [| apply Qlt_le_weak; apply pow2_pos].
    change 0%Q with (inject_Z 0). rewrite <- Zle_Qle. lia.
  - apply (binary_round_value true p e).
    apply digits_bound.
    setoid_replace (inject_Z (Zneg p) * pow2 e)%Q
      with (- (inject_Z (Zpos p) * pow2 e))%Q in Hb
      by (change (Zneg p) with (- Zpos p); rewrite inject_Z_opp; ring).
    rewrite Qabs_opp in Hb.
    rewrite Qabs_pos in Hb; [exact Hb |].
    apply Qmult_le_0_compat; [| apply Qlt_le_weak; apply pow2_pos].
    change 0%Q with (inject_Z 0). rewrite <- Zle_Qle. lia.
Qed.

Lemma signed_abs (s : bool) (p : positive) (e : Z) :
  (Qabs (inject_Z (cond_Zopp s (Zpos p)) * pow2 e)
   == inject_Z (Zpos p) * pow2 e)%Q.
Proof.
  rewrite Qabs_Qmult, (Qabs_pos (pow2 e))
    by (apply Qlt_le_weak; apply pow2_pos).
  destruct s; cbn [cond_Zopp Z.opp]; reflexivity.
Qed.

Lemma aligned_value (m mz : positive) (e ez : Z) :
  ez <= e -> Zpos mz = Zpos m * 2 ^ (e - ez) ->
  (inject_Z (Zpos mz) * pow2 ez == inject_Z (Zpos m) * pow2 e)%Q.
Proof.
  intros L E. rewrite E, inject_Z_mult, pow2_Z by lia.
  replace e with ((e - ez) + ez) at 2 by lia. rewrite pow2_add. ring.
Qed.

Lemma round_near (s : bool) (p : positive) (e : Z) :
  e <= 970 -> Zpos (digits2_pos p) + e <= 1023 ->
  exists vz,
    SFvalue (binary_round_aux prec emax s (Zpos p) e loc_Exact) = Some vz /\
    near (inject_Z (cond_Zopp s (Zpos p)) * pow2 e) vz.
Proof.
  intros He Hd. destruct (round_value s p e He Hd) as (vz & V & N).
  exists vz. split; [exact V |]. unfold near. rewrite signed_abs. exact N.
Qed.

Lemma SFadd_value (x y : spec_float) (vx vy : Q) :
  SFvalue x = Some vx -> SFvalue y = Some vy ->
  (Qabs (vx + vy) < pow2 1023)%Q ->
  exists vz, SFvalue (SFadd prec emax x y) = Some vz /\ near (vx + vy) vz.
Proof.
  intros Vx Vy Hb.
  destruct x as [sx | sx | | sx mx ex]; try discriminate;
    destruct y as [sy | sy | | sy my ey]; try discriminate;
    cbn [SFvalue] in Vx, Vy; injection Vx as <-; injection Vy as <-.
  - destruct sx, sy; cbn [SFadd SFvalue]; eexists;
      (split; [reflexivity | apply near_exact; ring]).
  - cbn [SFadd SFvalue]. eexists.
    split; [reflexivity | apply near_exact; ring].
  - cbn [SFadd SFvalue]. eexists.
    split; [reflexivity | apply near_exact; ring].
  - cbn [SFadd].
    destruct (shl_align_spec mx ex (Z.min ex ey)) as (m1 & e1 & -> & E1 & M1 & _).
    destruct (shl_align_spec my ey (Z.min ex ey)) as (m2 & e2 & -> & E2 & M2 & _).
    cbn [fst].
    assert (Same : (inject_Z (cond_Zopp sx (Zpos m1) + cond_Zopp sy (Zpos m2))
                    * pow2 (Z.min ex ey)
                    == inject_Z (cond_Zopp sx (Zpos mx)) * pow2 ex
                       + inject_Z (cond_Zopp sy (Zpos my)) * pow2 ey)%Q).
    { pose proof (aligned_value mx m1 ex e1 ltac:(lia) M1) as A1.
      pose proof (aligned_value my m2 ey e2 ltac:(lia) M2) as A2.
      replace e1 with (Z.min ex ey) in A1 by lia.
      replace e2 with (Z.min ex ey) in A2 by lia.
      rewrite inject_Z_plus, !cond_Zopp_Q.
      transitivity
        ((if sx then - 1 else 1) * (inject_Z (Zpos m1) * pow2 (Z.min ex ey))
         + (if sy then - 1 else 1)
           * (inject_Z (Zpos m2) * pow2 (Z.min ex ey)))%Q;
        [ring | rewrite A1, A2; ring]. }
    rewrite <- Same in Hb.
    destruct (normalize_value _ _ Hb) as (vz & V & N).
    exists vz. split; [exact V | rewrite <- Same; exact N].
Qed.

Lemma SFsub_value (x y : spec_float) (vx vy : Q) :
  SFvalue x = Some vx -> SFvalue y = Some vy ->
  (Qabs (vx - vy) < pow2 1023)%Q ->
  exists vz, SFvalue (SFsub prec emax x y) = Some vz /\ near (vx - vy) vz.
Proof.
  intros Vx Vy Hb.
  destruct x as [sx | sx | | sx mx ex]; try discriminate;
    destruct y as [sy | sy | | sy my ey]; try discriminate;
    cbn [SFvalue] in Vx, Vy; injection Vx as <-; injection Vy as <-.
  - destruct sx, sy; cbn [SFsub SFvalue]; eexists;
      (split; [reflexivity | apply near_exact; ring]).
  - cbn [SFsub SFvalue]. eexists.
    split; [reflexivity | apply near_exact].
    rewrite !cond_Zopp_Q. destruct sy; cbn [negb]; ring.
  - cbn [SFsub SFvalue]. eexists.
    split; [reflexivity | apply near_exact; ring].
  - cbn [SFsub].
    destruct (shl_align_spec mx ex (Z.min ex ey)) as (m1 & e1 & -> & E1 & M1 & _).
    destruct (shl_align_spec my ey (Z.min ex ey)) as (m2 & e2 & -> & E2 & M2 & _).
    cbn [fst].
    assert (Same : (inject_Z (cond_Zopp sx (Zpos m1) - cond_Zopp sy (Zpos m2))
                    * pow2 (Z.min ex ey)
                    == inject_Z (cond_Zopp sx (Zpos mx)) * pow2 ex
                       - inject_Z (cond_Zopp sy (Zpos my)) * pow2 ey)%Q).
    { pose proof (aligned_value mx m1 ex e1 ltac:(lia) M1) as A1.
      pose proof (aligned_value my m2 ey e2 ltac:(lia) M2) as A2.
      replace e1 with (Z.min ex ey) in A1 by lia.
      replace e2 with (Z.min ex ey) in A2 by lia.
      unfold Z.sub at 1.
      rewrite inject_Z_plus, inject_Z_opp, !cond_Zopp_Q.
      transitivity
        ((if sx then - 1 else 1) * (inject_Z (Zpos m1) * pow2 (Z.min ex ey))
         - (if sy then - 1 else 1)
           * (inject_Z (Zpos m2) * pow2 (Z.min ex ey)))%Q;
        [ring | rewrite A1, A2; ring]. }
    rewrite <- Same in Hb.
    destruct (normalize_value _ _ Hb) as (vz & V & N).
    exists vz. split; [exact V | rewrite <- Same; exact N].
Qed.

Lemma valid_finite (s : bool) (m : positive) (e : Z) :
  valid_binary prec emax (S754_finite s m e) = true ->
  e <= 971 /\ Zpos (digits2_pos m) <= 53 /\
  (Zpos (digits2_pos m) = 53 \/ e = -1074).
Proof.
  cbn [valid_binary]. unfold bounded, canonical_mantissa.
  rewrite fexp_value. intros H. apply andb_prop in H. destruct H as [C B].
  apply Z.eqb_eq in C. apply Z.leb_le in B.
  change (emax - prec) with 971 in B. lia.
Qed.

Lemma SFmul_value (x y : spec_float) (vx vy : Q) :
  valid_binary prec emax x = true -> valid_binary prec emax y = true ->
  SFvalue x = Some vx -> SFvalue y = Some vy ->
  (Qabs (vx * vy) < pow2 1023)%Q ->
  exists vz, SFvalue (SFmul prec emax x y) = Some vz /\ near (vx * vy) vz.
Proof.
  intros Wx Wy Vx Vy Hb.
  destruct x as [sx | sx | | sx mx ex]; try discriminate;
    destruct y as [sy | sy | | sy my ey]; try discriminate;
    cbn [SFvalue] in Vx, Vy; injection Vx as <-; injection Vy as <-.
  - cbn [SFmul SFvalue]. eexists.
    split; [reflexivity | apply near_exact; ring].
  - cbn [SFmul SFvalue]. eexists.
    split; [reflexivity | apply near_exact; ring].
  - cbn [SFmul SFvalue]. eexists.
    split; [reflexivity | apply near_exact; ring].
  - cbn [SFmul].
    assert (Same : (inject_Z (cond_Zopp (xorb sx sy) (Zpos (mx * my)))
                    * pow2 (ex + ey)
                    == inject_Z (cond_Zopp sx (Zpos mx)) * pow2 ex
                       * (inject_Z (cond_Zopp sy (Zpos my)) * pow2 ey))%Q).
    { rewrite !cond_Zopp_Q, Pos2Z.inj_mul, inject_Z_mult, pow2_add.
      destruct sx, sy; cbn [xorb]; ring. }
    rewrite <- Same in Hb.
    rewrite signed_abs in Hb. apply digits_bound in Hb.
    destruct (valid_finite _ _ _ Wx) as (Bx & Dx & Cx).
    destruct (valid_finite _ _ _ Wy) as (By & Dy & Cy).
    pose proof (digits_product mx my) as Dp.
    destruct (round_near (xorb sx sy) (mx * my) (ex + ey)) as (vz & V & N);
      [lia | lia |].
    exists vz. split; [exact V | rewrite <- Same; exact N].
Qed.


Lemma add_value (x y : float) (vx vy : Q) :
  valueOf x = Some vx -> valueOf y = Some vy ->
  (Qabs (vx + vy) < pow2 1023)%Q ->
  exists vz, valueOf (PrimFloat.add x y) = Some vz /\ near (vx + vy) vz.
Proof.
  unfold valueOf. rewrite FloatAxioms.add_spec. apply SFadd_value.
Qed.

Lemma sub_value (x y : float) (vx vy : Q) :
  valueOf x = Some vx -> valueOf y = Some vy ->
  (Qabs (vx - vy) < pow2 1023)%Q ->
  exists vz, valueOf (PrimFloat.sub x y) = Some vz /\ near (vx - vy) vz.
Proof.
  unfold valueOf. rewrite FloatAxioms.sub_spec. apply SFsub_value.
Qed.

Lemma mul_value (x y : float) (vx vy : Q) :
  valueOf x = Some vx -> valueOf y = Some vy ->
  (Qabs (vx * vy) < pow2 1023)%Q ->
  exists vz, valueOf (PrimFloat.mul x y) = Some vz /\ near (vx * vy) vz.
Proof.
  unfold valueOf. rewrite FloatAxioms.mul_spec.
  apply SFmul_value; apply FloatAxioms.Prim2SF_valid.
Qed.

Local Open Scope Q_scope.

Lemma pow2_m53 : pow2 (-53) == 1 # 9007199254740992.
Proof. vm_compute. reflexivity. Qed.

Lemma pow2_m49 : pow2 (-49) == 16 * (1 # 9007199254740992).
Proof. vm_compute. reflexivity. Qed.

Lemma pow2_m1072 : pow2 (-1072) == 8 * pow2 (-1075).
Proof.
  change (-1072)%Z with (3 + -1075)%Z. rewrite pow2_add. reflexivity.
Qed.

Lemma pow2_m1075_le : pow2 (-1075) <= 1.
Proof. change 1 with (pow2 0). apply pow2_le. discriminate. Qed.

Lemma pow2_1023 : pow2 1023 == 8388608 * (pow2 500 * pow2 500).
Proof.
  rewrite <- pow2_add. change (500 + 500)%Z with 1000%Z.
  change 1023%Z with (23 + 1000)%Z. rewrite pow2_add. reflexivity.
Qed.

Lemma pow2_500_ge : 1 <= pow2 500.
Proof. change 1 with (pow2 0). apply pow2_le. discriminate. Qed.

(** What [near] gives once the exact value is bounded. *)
Lemma near_elim (v z b : Q) :
  near v z -> Qabs v <= b ->
  Qabs (z - v) <= b * (1 # 9007199254740992) + pow2 (-1075) /\
  Qabs z <= b + b * (1 # 9007199254740992) + pow2 (-1075).
Proof.
  unfold near. rewrite pow2_m53. intros N B.
  assert (E : Qabs (z - v) <= b * (1 # 9007199254740992) + pow2 (-1075)) by lra.
  split; [exact E |].
  setoid_replace z with ((z - v) + v) at 1 by ring.
  eapply Qle_trans; [apply Qabs_triangle |]. lra.
Qed.

Lemma Qabs_mul_le (x s b : Q) : Qabs x <= b -> Qabs (x * s) <= b * Qabs s.
Proof.
  intros B. rewrite Qabs_Qmult.
  apply Qmult_le_compat_r; [exact B | apply Qabs_nonneg].
Qed.

Lemma Qabs_add_le (x y bx by' : Q) :
  Qabs x <= bx -> Qabs y <= by' -> Qabs (x + y) <= bx + by'.
Proof.
  intros Bx By. eapply Qle_trans; [apply Qabs_triangle |]. lra.
Qed.

Lemma Qabs_sub_le (x y bx by' : Q) :
  Qabs x <= bx -> Qabs y <= by' -> Qabs (x - y) <= bx + by'.
Proof.
  intros Bx By. unfold Qminus.
  eapply Qle_trans; [apply Qabs_triangle |]. rewrite Qabs_opp. lra.
Qed.

Lemma Qmult_le_both (a b c d : Q) :
  0 <= a -> a <= c -> 0 <= b -> b <= d -> a * b <= c * d.
Proof.
  intros A0 AC B0 BD.
  apply Qle_trans with (c * b).
  - apply Qmult_le_compat_r; assumption.
  - rewrite (Qmult_comm c b), (Qmult_comm c d).
    apply Qmult_le_compat_r; [assumption | lra].
Qed.

(** The two sides of the affine identity in binary64: for finite
    positions [p1], [p2], a finite offset [c] of magnitude at most 1 and a
    finite scale [ppm], none of them beyond 2^500 in magnitude, both sides
    are finite, and they differ by at most a few roundings of the
    quantities in play. *)
Lemma affine_gap (p1 p2 c ppm : float) (q1 q2 c3 s : Q) :
  valueOf p1 = Some q1 -> valueOf p2 = Some q2 ->
  valueOf c = Some c3 -> valueOf ppm = Some s ->
  Qabs c3 <= 1 ->
  Qabs q1 + Qabs q2 + 1 <= pow2 500 -> Qabs s <= pow2 500 ->
  exists d m,
    valueOf (PrimFloat.sub (PrimFloat.mul (PrimFloat.add p2 c) ppm)
                           (PrimFloat.mul (PrimFloat.add p1 c) ppm))
    = Some d /\
    valueOf (PrimFloat.mul (PrimFloat.sub p2 p1) ppm) = Some m /\
    Qabs (d - m)
    <= (Qabs q1 + Qabs q2 + 1) * Qabs s * pow2 (-49)
       + (Qabs s + 1) * pow2 (-1072).
Proof.
  intros V1 V2 Vc Vs Hc HK HS.
  pose proof (Qabs_nonneg q1) as N1. pose proof (Qabs_nonneg q2) as N2.
  pose proof (Qabs_nonneg s) as NS. pose proof (Qabs_nonneg c3) as Nc.
  pose proof (pow2_pos (-1075)) as Pn. pose proof pow2_m1075_le as Ln.
  pose proof pow2_500_ge as Big1. pose proof pow2_1023 as Top.
  assert (E1 : Qabs (q1 + c3) <= Qabs q1 + Qabs q2 + 1)
    by (eapply Qle_trans; [apply Qabs_triangle | lra]).
  assert (E2 : Qabs (q2 + c3) <= Qabs q1 + Qabs q2 + 1)
    by (eapply Qle_trans; [apply Qabs_triangle | lra]).
  assert (ET : Qabs (q2 - q1) <= Qabs q1 + Qabs q2 + 1).
  { pose proof (Qabs_sub_le q2 q1 _ _ (Qle_refl _) (Qle_refl _)). lra. }
  assert (K1 : 1 <= Qabs q1 + Qabs q2 + 1) by lra.
  remember (pow2 (-49)) as u49 eqn:Eu49.
  remember (pow2 (-1072)) as n8 eqn:En8.
  remember (Qabs q1 + Qabs q2 + 1) as K eqn:EK.
  remember (Qabs s) as S eqn:ES.
  remember (pow2 (-1075)) as n eqn:En.
  remember (pow2 500) as Big eqn:EBig.
  remember (pow2 1023) as T eqn:ET'.
  clear N1 N2 Nc Hc EK.
  assert (W0 : 0 <= K * S) by (apply Qmult_le_0_compat; lra).
  assert (NS0 : 0 <= n * S) by (apply Qmult_le_0_compat; lra).
  assert (WB : K * S <= Big * Big) by (apply Qmult_le_both; lra).
  assert (NB : n * S <= Big * Big).
  { apply Qle_trans with (1 * Big); [apply Qmult_le_both; lra |].
    apply Qmult_le_both; lra. }
  assert (KB : K <= Big * Big).
  { apply Qle_trans with (Big * 1); [lra | apply Qmult_le_both; lra]. }
  assert (BB1 : 1 <= Big * Big).
  { apply Qle_trans with (1 * 1); [lra | apply Qmult_le_both; lra]. }
  (* a1, a2 *)
  destruct (add_value p1 c q1 c3 V1 Vc) as (a1 & Va1 & Na1);
    [rewrite <- ET'; lra |].
  destruct (add_value p2 c q2 c3 V2 Vc) as (a2 & Va2 & Na2);
    [rewrite <- ET'; lra |].
  destruct (near_elim _ _ _ Na1 E1) as [Da1 Ba1].
  destruct (near_elim _ _ _ Na2 E2) as [Da2 Ba2].
  rewrite <- En in Da1, Ba1, Da2, Ba2.
  (* g1, g2 *)
  pose proof (Qabs_mul_le a1 s _ Ba1) as P1. rewrite <- ES in P1.
  pose proof (Qabs_mul_le a2 s _ Ba2) as P2. rewrite <- ES in P2.
  destruct (mul_value _ ppm a1 s Va1 Vs) as (g1 & Vg1 & Ng1);
    [rewrite <- ET'; lra |].
  destruct (mul_value _ ppm a2 s Va2 Vs) as (g2 & Vg2 & Ng2);
    [rewrite <- ET'; lra |].
  destruct (near_elim _ _ _ Ng1 P1) as [Dg1 Bg1].
  destruct (near_elim _ _ _ Ng2 P2) as [Dg2 Bg2].
  rewrite <- En in Dg1, Bg1, Dg2, Bg2.
  (* d *)
  pose proof (Qabs_sub_le g2 g1 _ _ Bg2 Bg1) as PD.
  destruct (sub_value _ _ g2 g1 Vg2 Vg1) as (d & Vd & Nd);
    [rewrite <- ET'; lra |].
  destruct (near_elim _ _ _ Nd PD) as [Dd _].
  rewrite <- En in Dd.
  (* t *)
  destruct (sub_value p2 p1 q2 q1 V2 V1) as (t & Vt & Nt);
    [rewrite <- ET'; lra |].
  destruct (near_elim _ _ _ Nt ET) as [Dt Bt].
  rewrite <- En in Dt, Bt.
  (* m *)
  pose proof (Qabs_mul_le t s _ Bt) as PM. rewrite <- ES in PM.
  destruct (mul_value _ ppm t s Vt Vs) as (m & Vm & Nm);
    [rewrite <- ET'; lra |].
  destruct (near_elim _ _ _ Nm PM) as [Dm _].
  rewrite <- En in Dm.
  exists d, m. split; [exact Vd |]. split; [exact Vm |].
  rewrite Eu49, En8, pow2_m49, pow2_m1072, <- En.
  (* the positions, once rounded, still differ by what they differed *)
  assert (X : Qabs ((a2 - a1 - t) * s)
              <= (3 * (K * (1 # 9007199254740992) + n)) * S).
  { rewrite ES. apply Qabs_mul_le.
    setoid_replace (a2 - a1 - t)
      with (((a2 - (q2 + c3)) - (a1 - (q1 + c3))) - (t - (q2 - q1))) by ring.
    pose proof (Qabs_sub_le _ _ _ _ (Qabs_sub_le _ _ _ _ Da2 Da1) Dt).
    lra. }
  setoid_replace (d - m)
    with ((((d - (g2 - g1)) + ((g2 - a2 * s) - (g1 - a1 * s)))
           + (a2 - a1 - t) * s) - (m - t * s)) by ring.
  pose proof (Qabs_sub_le _ _ _ _
                (Qabs_add_le _ _ _ _
                   (Qabs_add_le _ _ _ _ Dd (Qabs_sub_le _ _ _ _ Dg2 Dg1)) X)
                Dm) as Sum.
  eapply Qle_trans; [exact Sum |].
  clear - W0 NS0 Pn Ln NS K1. lra.
Qed.
End RoundingFacts.

(** In binary64 the two sides of the affine identity need not be the same
    number: at 1200 pixels per metre, [getX(2.4) - getX(0)] is
    2879.9999999999995 while [meterToPixel(2.4 - 0)] is 2880, one rounding
    apart. *)
Lemma transform_difference_rounds :
  nsub (getX reference1200 (lit 2.4)) (getX reference1200 (lit 0))
  = 2879.9999999999995%float /\
  meterToPixel reference1200 (nsub (lit 2.4) (lit 0)) = 2880%float /\
  neqb (nsub (getX reference1200 (lit 2.4)) (getX reference1200 (lit 0)))
       (meterToPixel reference1200 (nsub (lit 2.4) (lit 0)))
  = false.
Proof. repeat split; vm_compute; reflexivity. Qed.

(** C5.  [meterToPixel(m)] is [m * pixelsPerMeter] and [getX(p)] is
    [meterToPixel(p + 0.3)], for every argument, negative ones included,
    in either arithmetic.  In exact arithmetic
    [getX(p2) - getX(p1) = meterToPixel(p2 - p1)] for every scale and all
    positions.  In binary64, for every generator and all positions, of
    either sign, whose scale [s] and positions [q1], [q2] are finite and
    at most 2^500 in magnitude, both sides are finite numbers and they
    agree within floating tolerance: they differ by at most
    [(|q1| + |q2| + 1) * |s| * 2^-49 + (|s| + 1) * 2^-1072], which for
    positions on the mat at 1200 pixels per metre is less than 2e-11
    pixel. *)
Theorem transform_affine :
  (forall (this : MatGenerator Q) (p1 p2 : Q),
     (getX this p2 - getX this p1 == meterToPixel this (p2 - p1))%Q) /\
  (forall (A : Type) (N : Number A) (this : MatGenerator A) (m : A),
     meterToPixel this m = nmul m (pixelsPerMeter this)) /\
  (forall (A : Type) (N : Number A) (this : MatGenerator A) (p : A),
     getX this p = meterToPixel this (nadd p (lit 0.3))) /\
  (forall (this : MatGenerator float) (p1 p2 : float) (q1 q2 s : Q),
     Rounding.valueOf p1 = Some q1 ->
     Rounding.valueOf p2 = Some q2 ->
     Rounding.valueOf (pixelsPerMeter this) = Some s ->
     (Qabs q1 + Qabs q2 + 1 <= Rounding.pow2 500)%Q ->
     (Qabs s <= Rounding.pow2 500)%Q ->
     exists d m,
       Rounding.valueOf (nsub (getX this p2) (getX this p1)) = Some d /\
       Rounding.valueOf (meterToPixel this (nsub p2 p1)) = Some m /\
       (Qabs (d - m)
        <= (Qabs q1 + Qabs q2 + 1) * Qabs s * Rounding.pow2 (-49)
           + (Qabs s + 1) * Rounding.pow2 (-1072))%Q).
Proof.
  split; [| split; [| split]].
  - intros this p1 p2. unfold getX, meterToPixel.
    cbn [nadd nmul lit exact]. ring.
  - intros A N this m. reflexivity.
  - intros A N this p. reflexivity.
  - intros this p1 p2 q1 q2 s V1 V2 Vs HK HS.
    assert (Vc : exists c3, Rounding.valueOf (lit 0.3 : float) = Some c3 /\
                            (Qabs c3 <= 1)%Q).
    { eexists. split; [vm_compute; reflexivity | vm_compute; discriminate]. }
    destruct Vc as (c3 & Vc & Hc).
    exact (RoundingFacts.affine_gap p1 p2 (lit 0.3) (pixelsPerMeter this)
             q1 q2 c3 s V1 V2 Vc Vs Hc HK HS).
Qed.

Lemma transform_affine_witness :
  exists d m,
    Rounding.valueOf (nsub (getX reference1200 (lit 2.4))
                           (getX reference1200 (lit 0))) = Some d /\
    Rounding.valueOf (meterToPixel reference1200 (nsub (lit 2.4) (lit 0)))
    = Some m /\
    (Qabs (d - m) <= 1 # 100000000000)%Q.
Proof.
  destruct transform_affine as (_ & _ & _ & Gap).
  eassert (V1 : Rounding.valueOf (lit 0 : float) = Some _)
    by (vm_compute; reflexivity).
  eassert (V2 : Rounding.valueOf (lit 2.4 : float) = Some _)
    by (vm_compute; reflexivity).
  eassert (Vs : Rounding.valueOf (pixelsPerMeter reference1200) = Some _)
    by (vm_compute; reflexivity).
  destruct (Gap reference1200 (lit 0) (lit 2.4) _ _ _ V1 V2 Vs)
    as (d & m & Vd & Vm & G);
    [vm_compute; discriminate | vm_compute; discriminate |].
  exists d, m. split; [exact Vd |]. split; [exact Vm |].
  eapply Qle_trans; [exact G | vm_compute; discriminate].
Defined.

(** * Further properties *)

(** ** The dictionary as a code *)

(** X2.  Any two different patterns of the table differ in at least four
    of their sixteen cells, and no quarter, half or three-quarter turn of
    a pattern is a pattern of the table, the pattern itself included: a
    patch seen under any of the four orientations is read as at most one
    identifier. *)
Theorem dictionary_separation (p q : list (list Z)) :
  In p ARUCO_DICT_4X4_50 -> In q ARUCO_DICT_4X4_50 ->
  (p <> q -> (4 <= hamming p q)%nat) /\
  rotate90 p <> q /\
  rotate90 (rotate90 p) <> q /\
  rotate90 (rotate90 (rotate90 p)) <> q.
Proof.
  intros Hp Hq.
  assert (S : patternSeparated p q = true).
  { assert (All : forallb (fun p => forallb (patternSeparated p)
                                       ARUCO_DICT_4X4_50)
                          ARUCO_DICT_4X4_50 = true)
      by (vm_compute; reflexivity).
    rewrite forallb_forall in All. specialize (All p Hp).
    rewrite forallb_forall in All. exact (All q Hq). }
  unfold patternSeparated, samePattern in S.
  repeat (apply andb_prop in S; destruct S as [S ?]).
  repeat match goal with
  | Hd : negb (if ?d then true else false) = true |- _ =>
      destruct d; [discriminate Hd | clear Hd]
  end.
  destruct (list_eq_dec (list_eq_dec Z.eq_dec) p q) as [-> | Ne].
  - repeat split; try assumption. intros Ne. contradiction.
  - repeat split; try assumption. intros _. apply Nat.leb_le. exact S.
Qed.

Lemma dictionary_separation_witness :
  (4 <= hamming (nth 0 ARUCO_DICT_4X4_50 []) (nth 8 ARUCO_DICT_4X4_50 []))%nat.
Proof.
  apply (dictionary_separation (nth 0 ARUCO_DICT_4X4_50 [])
           (nth 8 ARUCO_DICT_4X4_50 [])).
  - simpl. tauto.
  - simpl. tauto.
  - vm_compute. discriminate.
Defined.

(** ** Reading a patch back *)

(** In binary64, at the whole core sizes from 12 to 128 pixels and without
    quiet border, the patches of the twelve identifiers are read back as
    their identifiers. *)
Lemma markers_read_back_binary64 : forallb readsBack (zrange 12 117) = true.
Proof. vm_compute. reflexivity. Qed.

Lemma readsBack_spec (s id : Z) :
  12 <= s <= 128 -> 0 <= id < 12 ->
  exists patch,
    createArucoMarker (A := float) id (ofZ s) (lit 0) = Ok patch /\
    width patch = s /\ height patch = s /\
    decodeMarker patch = Some id.
Proof.
  intros Hs Hid.
  pose proof markers_read_back_binary64 as All.
  rewrite forallb_forall in All.
  specialize (All s (zrange_In 12 117 s ltac:(lia))).
  unfold readsBack in All. rewrite forallb_forall in All.
  specialize (All id (zrange_In 0 12 id ltac:(lia))).
  destruct (createArucoMarker id (ofZ s) (lit 0)) as [patch | e |];
    try discriminate.
  exists patch. split; [reflexivity |].
  apply andb_prop in All. destruct All as [All D].
  apply andb_prop in All. destruct All as [W Hh].
  apply Z.eqb_eq in W. apply Z.eqb_eq in Hh.
  split; [exact W |]. split; [exact Hh |].
  destruct (decodeMarker patch) as [id' |]; [| discriminate].
  apply Z.eqb_eq in D. rewrite D. reflexivity.
Qed.

Ltac cell Hne patch patch' r c :=
  let E := fresh "E" in
  destruct (Z.eq_dec (readBit patch r c) (readBit patch' r c)) as [E | E];
  [rewrite E in Hne; clear E
  | exists r, c; split; [lia | split; [lia | exact E]]].

(** Patches that are read as different patterns differ in the pixel at
    the centre of some cell. *)
Lemma readPattern_differs (patch patch' : Canvas float) :
  readPattern patch <> readPattern patch' ->
  exists row col,
    0 <= row <= 3 /\ 0 <= col <= 3 /\
    readBit patch row col <> readBit patch' row col.
Proof.
  unfold readPattern. cbn [map]. intros Hne.
  cell Hne patch patch' 0 0. cell Hne patch patch' 0 1.
  cell Hne patch patch' 0 2. cell Hne patch patch' 0 3.
  cell Hne patch patch' 1 0. cell Hne patch patch' 1 1.
  cell Hne patch patch' 1 2. cell Hne patch patch' 1 3.
  cell Hne patch patch' 2 0. cell Hne patch patch' 2 1.
  cell Hne patch patch' 2 2. cell Hne patch patch' 2 3.
  cell Hne patch patch' 3 0. cell Hne patch patch' 3 1.
  cell Hne patch patch' 3 2. cell Hne patch patch' 3 3.
  contradiction Hne. reflexivity.
Qed.

(** X3.  Encoding and reading back, in binary64: for a non-negative
    identifier and a whole core size from 12 to 128 pixels, without quiet
    border (as the marker pass asks for it), [createArucoMarker] returns a
    patch of that size whose sixteen data cells, each read at the pixel of
    its centre, give the identifier modulo the dictionary size. *)
Theorem decodeMarker_createArucoMarker (id s : Z) :
  0 <= id -> 12 <= s <= 128 ->
  exists patch,
    createArucoMarker (A := float) id (ofZ s) (lit 0) = Ok patch /\
    width patch = s /\ height patch = s /\
    decodeMarker patch = Some (id mod dictionarySize).
Proof.
  intros Hid Hs.
  destruct (rem_nonnegative id Hid) as [Hr Hm].
  destruct (readsBack_spec s (id mod dictionarySize) Hs)
    as (patch & P & W & Hh & D).
  { rewrite <- Hm. exact Hr. }
  exists patch. split; [| split; [exact W | split; [exact Hh | exact D]]].
  rewrite <- P. apply createArucoMarker_rem.
  rewrite Hm. symmetry. apply Z.rem_small.
  apply Z.mod_pos_bound. reflexivity.
Qed.

Lemma decodeMarker_createArucoMarker_witness :
  exists patch,
    createArucoMarker (A := float) 20 (ofZ 96) (lit 0) = Ok patch /\
    decodeMarker patch = Some 8.
Proof.
  destruct (decodeMarker_createArucoMarker 20 96) as (patch & P & _ & _ & D);
    [lia | lia |].
  exists patch. split; [exact P | exact D].
Defined.

(** X1.  In binary64, at a whole core size from 12 to 128 pixels and
    without quiet border, [createArucoMarker] returns for two
    non-negative identifiers the same patch when they are congruent
    modulo the dictionary size, and otherwise two patches that differ in
    the pixel at the centre of some data cell, dark in one and light in
    the other: the twelve patterns are drawn as twelve different
    pictures, and an identifier beyond the table repeats the picture of
    its remainder. *)
Theorem createArucoMarker_injective (id id' s : Z) :
  0 <= id -> 0 <= id' -> 12 <= s <= 128 ->
  exists patch patch',
    createArucoMarker (A := float) id (ofZ s) (lit 0) = Ok patch /\
    createArucoMarker (A := float) id' (ofZ s) (lit 0) = Ok patch' /\
    (id mod dictionarySize = id' mod dictionarySize -> patch = patch') /\
    (id mod dictionarySize <> id' mod dictionarySize ->
     exists row col,
       0 <= row <= 3 /\ 0 <= col <= 3 /\
       readBit patch row col <> readBit patch' row col).
Proof.
  intros Hid Hid' Hs.
  destruct (rem_nonnegative id Hid) as [Hr Hm].
  destruct (rem_nonnegative id' Hid') as [Hr' Hm'].
  destruct (readsBack_spec s (Z.rem id dictionarySize) Hs Hr)
    as (patch & P & _ & _ & D).
  destruct (readsBack_spec s (Z.rem id' dictionarySize) Hs Hr')
    as (patch' & P' & _ & _ & D').
  assert (R : forall a, 0 <= a ->
            Z.rem (Z.rem a dictionarySize) dictionarySize
            = Z.rem a dictionarySize)
    by (intros a _; apply Z.rem_rem; vm_compute; discriminate).
  rewrite (createArucoMarker_rem _ id _ _ (R id Hid)) in P.
  rewrite (createArucoMarker_rem _ id' _ _ (R id' Hid')) in P'.
  exists patch, patch'. split; [exact P |]. split; [exact P' |].
  rewrite <- Hm, <- Hm'. split.
  - intros Same.
    rewrite (createArucoMarker_rem id id' _ _ Same) in P.
    congruence.
  - intros Differ. apply readPattern_differs. intros Same.
    unfold decodeMarker in D, D'. rewrite Same in D. congruence.
Qed.

Lemma createArucoMarker_injective_witness :
  exists patch patch' row col,
    createArucoMarker (A := float) 3 (ofZ 96) (lit 0) = Ok patch /\
    createArucoMarker (A := float) 4 (ofZ 96) (lit 0) = Ok patch' /\
    readBit patch row col <> readBit patch' row col.
Proof.
  destruct (createArucoMarker_injective 3 4 96)
    as (patch & patch' & P & P' & _ & Differ); [lia | lia | lia |].
  destruct Differ as (row & col & _ & _ & N); [vm_compute; discriminate |].
  exists patch, patch', row, col.
  split; [exact P |]. split; [exact P' | exact N].
Defined.

(** X4.  [getArucoMarkerDataURL] throws exactly for the negative
    identifiers that are no multiple of the dictionary size, and otherwise
    returns what it returns for [id % N]; with the size left out it encodes
    a patch of 160 by 160 pixels (the core of 128 and the encoder's own
    default border of 16 on each side), as PNG. *)
Theorem getArucoMarkerDataURL_throws_iff
    (toDataURL : Canvas float -> string -> option float -> string)
    (id : Z) (size : option float) :
  (getArucoMarkerDataURL toDataURL id size = Throw TypeError
   <-> id < 0 /\ Z.rem id dictionarySize <> 0) /\
  getArucoMarkerDataURL toDataURL id size
  = getArucoMarkerDataURL toDataURL (Z.rem id dictionarySize) size /\
  (forall url,
      getArucoMarkerDataURL toDataURL id None = Ok url ->
      exists patch,
        createArucoMarker id 128%float 16%float = Ok patch /\
        url = toDataURL patch "image/png"%string None /\
        width patch = 160 /\ height patch = 160).
Proof.
  assert (Hn : dictionarySize <> 0) by discriminate.
  split; [| split].
  - unfold getArucoMarkerDataURL, createArucoMarker. fold dictionarySize.
    split.
    + intros E.
      destruct (Z.ltb_spec (Z.rem id dictionarySize) 0) as [Hneg | Hpos].
      * split; [| intros Z; rewrite Z in Hneg; discriminate].
        destruct (Z.lt_ge_cases id 0) as [Hid | Hid]; [exact Hid |].
        pose proof (Z.rem_nonneg id dictionarySize Hn Hid) as Hr.
        exfalso. revert Hneg Hr. generalize (Z.rem id dictionarySize).
        intros; lia.
      * pose proof (Z.rem_bound_abs id dictionarySize Hn) as Hb.
        destruct (lookup_in_range ARUCO_DICT_4X4_50
                    (Z.rem id dictionarySize)) as [pattern L].
        { change (Z.abs dictionarySize) with 12 in Hb.
          revert Hpos Hb. generalize (Z.rem id dictionarySize).
          change (Z.of_nat (List.length ARUCO_DICT_4X4_50)) with 12.
          intros; lia. }
        rewrite L in E. discriminate.
    + intros [Hid Hr0]. rewrite lookup_negative; [reflexivity |].
      pose proof (Z.rem_nonpos id dictionarySize Hn ltac:(lia)) as Hr.
      revert Hr Hr0. generalize (Z.rem id dictionarySize). intros; lia.
  - unfold getArucoMarkerDataURL.
    rewrite (createArucoMarker_rem id (Z.rem id dictionarySize));
      [reflexivity |].
    symmetry. apply Z.rem_rem. exact Hn.
  - intros url. unfold getArucoMarkerDataURL. cbn [orElse].
    change (lit 128) with 128%float. change (lit 16) with 16%float.
    destruct (createArucoMarker id 128%float 16%float) as [patch | e |] eqn:E;
      cbn [bind]; try discriminate.
    intros U. injection U as <-. exists patch.
    split; [reflexivity |]. split; [reflexivity |].
    unfold createArucoMarker in E.
    destruct (lookup _ _); [| discriminate]. injection E as <-.
    split; vm_compute; reflexivity.
Qed.

(** ** The generator *)

(** X5.  The scale of a generator is never falsy: the constructor keeps
    the option [pixelsPerMeter] when it is a number other than 0 and NaN,
    and a generator built with a zero or NaN scale, or with none, is the
    generator at 1200 pixels per metre.  A new generator holds no
    surface. *)
Theorem new_MatGenerator_scale (options : Options float) :
  truthy (pixelsPerMeter (new_MatGenerator options)) = true /\
  canvas (new_MatGenerator options) = None /\
  (forall p, optPixelsPerMeter options = Some p -> truthy p = false ->
             new_MatGenerator options
             = new_MatGenerator
                 {| optTotalLength := optTotalLength options;
                    optTotalWidth := optTotalWidth options;
                    optZones := optZones options;
                    optScales := optScales options;
                    optAruco := optAruco options;
                    optPixelsPerMeter := None |}) /\
  map (fun p => pixelsPerMeter (new_MatGenerator (withPixelsPerMeter p)))
      [ 0%float; (-0)%float; nan; 1000%float; (-1)%float; infinity ]
  = [ 1200%float; 1200%float; 1200%float; 1000%float; (-1)%float; infinity ].
Proof.
  split; [| split; [reflexivity | split]].
  - unfold new_MatGenerator. cbn [pixelsPerMeter].
    destruct (optPixelsPerMeter options) as [p |];
      [destruct (truthy p) eqn:T; [exact T |] |]; vm_compute; reflexivity.
  - intros p E T. unfold new_MatGenerator. cbn [optPixelsPerMeter
      optTotalLength optTotalWidth optZones optScales optAruco].
    rewrite E, T. reflexivity.
  - vm_compute. reflexivity.
Qed.

(** X9.  The three tick loops together, in binary64: the flight-zone
    loop marks the whole decimetres 10 cm to 130 cm, the precision loop
    every centimetre from 140 cm to 280 cm, the extension loop 290 cm and
    300 cm; no centimetre is marked twice (the flight-zone loop stops
    short of 1.4 m, where the precision loop starts), and 0 cm is marked
    by none of them. *)
Theorem ticks_cover_once (fuel : nat) :
  (141 <= fuel)%nat ->
  exists takeoff precision extension : list float,
    numRange fuel (lit 0.1) (lit 1.4) (lit 0.1) = Some takeoff /\
    numRange fuel (lit 1.4) (lit 2.8) (lit 0.01) = Some precision /\
    numRange fuel (lit 2.9) (lit 3.0) (lit 0.1) = Some extension /\
    map cmValueAt takeoff = map (fun k => 10 * Z.of_nat k) (seq 1 13) /\
    map cmValueAt precision = map Z.of_nat (seq 140 141) /\
    map cmValueAt extension = [290; 300] /\
    NoDup (map cmValueAt (takeoff ++ precision ++ extension)).
Proof.
  intros Hfuel.
  exists takeoffPositions, precisionPositions, extensionPositions.
  assert (E1 : map cmValueAt takeoffPositions
               = map (fun k => 10 * Z.of_nat k) (seq 1 13))
    by (vm_compute; reflexivity).
  assert (E2 : map cmValueAt precisionPositions = map Z.of_nat (seq 140 141))
    by (vm_compute; reflexivity).
  assert (E3 : map cmValueAt extensionPositions = [290; 300])
    by (vm_compute; reflexivity).
  split; [apply takeoff_range_binary64; lia |].
  split; [apply precision_range_binary64; lia |].
  split; [apply extension_range_binary64; lia |].
  split; [exact E1 |]. split; [exact E2 |]. split; [exact E3 |].
  rewrite !map_app, E1, E2, E3.
  apply NoDup_app.
  - apply Finite.Injective_map_NoDup; [intros a b; lia | apply seq_NoDup].
  - apply NoDup_app.
    + apply Finite.Injective_map_NoDup; [intros a b; lia | apply seq_NoDup].
    + repeat constructor; cbn [In]; intuition discriminate.
    + intros x Hx Hy. apply in_map_iff in Hx. destruct Hx as [k [<- Hk]].
      apply in_seq in Hk. cbn [In] in Hy. lia.
  - intros x Hx Hy. apply in_map_iff in Hx. destruct Hx as [k [<- Hk]].
    apply in_seq in Hk. apply in_app_or in Hy. destruct Hy as [Hy | Hy].
    + apply in_map_iff in Hy. destruct Hy as [j [E4 Hj]].
      apply in_seq in Hj. lia.
    + cbn [In] in Hy. lia.
Qed.

Lemma ticks_cover_once_witness :
  exists takeoff precision extension : list float,
    numRange 141 (lit 0.1) (lit 1.4) (lit 0.1) = Some takeoff /\
    numRange 141 (lit 1.4) (lit 2.8) (lit 0.01) = Some precision /\
    numRange 141 (lit 2.9) (lit 3.0) (lit 0.1) = Some extension /\
    NoDup (map cmValueAt (takeoff ++ precision ++ extension)).
Proof.
  destruct (ticks_cover_once 141 (le_n 141))
    as (l1 & l2 & l3 & E1 & E2 & E3 & _ & _ & _ & N).
  exists l1, l2, l3. repeat split; assumption.
Defined.

(** ** Save and restore *)

Section ScopeFacts.
Context {A : Type} `{Number A}.

Lemma transforms_app (cs cs' : list (Call A)) cur stack :
  transforms (cs ++ cs') cur stack
  = let (log, final) := transforms cs cur stack in
    let (log', final') := transforms cs' (fst final) (snd final) in
    (log ++ log', final').
Proof.
  revert cur stack.
  induction cs as [| c cs IH]; intros cur stack.
  - cbn [app transforms fst snd].
    destruct (transforms cs' cur stack) as [log' final']. reflexivity.
  - destruct c; cbn [app transforms]; try apply IH.
    all: try (rewrite IH; destruct (transforms cs cur stack) as [log final];
              destruct (transforms cs' (fst final) (snd final));
              reflexivity).
    destruct stack as [| saved stack']; apply IH.
Qed.

Lemma wellScoped_app (cs cs' : list (Call A)) :
  wellScoped cs -> wellScoped cs' -> wellScoped (cs ++ cs').
Proof.
  unfold wellScoped. rewrite transforms_app.
  destruct (transforms cs [] []) as [log final].
  cbn [fst snd]. intros [F E]. subst final. cbn [fst snd].
  destruct (transforms cs' [] []) as [log' final'].
  cbn [fst snd]. intros [F' E']. split; [| exact E'].
  apply Forall_app. split; assumption.
Qed.

Lemma plain_wellScoped (cs : list (Call A)) :
  Forall (fun c => plain c = true) cs -> wellScoped cs.
Proof.
  unfold wellScoped.
  induction 1 as [| c cs Hc _ [IH1 IH2]].
  - split; [constructor | reflexivity].
  - destruct c; try discriminate Hc; cbn [transforms];
      try (split; assumption);
      destruct (transforms cs [] []) as [log final]; cbn [fst snd] in *;
      (split; [constructor; [reflexivity | assumption] | assumption]).
Qed.

Lemma plain_texts (cs : list (Call A)) :
  Forall (fun c => plain c = true) cs -> texts cs = [].
Proof.
  induction 1 as [| c cs Hc _ IH]; [reflexivity |].
  destruct c; try discriminate Hc; exact IH.
Qed.

Lemma texts_app (cs cs' : list (Call A)) :
  texts (cs ++ cs') = texts cs ++ texts cs'.
Proof. apply flat_map_app. Qed.

Lemma strokeTick_plain (w x y h : A) :
  Forall (fun c => plain c = true) (strokeTick w x y h).
Proof. unfold strokeTick. repeat constructor. Qed.

Lemma flat_map_plain {X} (f : X -> list (Call A)) (l : list X) :
  (forall x, Forall (fun c => plain c = true) (f x)) ->
  Forall (fun c => plain c = true) (flat_map f l).
Proof.
  intros Hf. apply Forall_flat_map. apply Forall_forall. intros x _. apply Hf.
Qed.

Ltac plain_calls :=
  repeat first
    [ apply Forall_nil
    | apply Forall_cons; [reflexivity |]
    | apply strokeTick_plain
    | apply flat_map_plain; intros ?
    | apply Forall_app; split ].

(** The pass that [generate] uses for the labels leaves the transform as
    it found it and writes each label under its own translation and
    rotation. *)
Lemma drawSimplifiedLabels_wellScoped (this : MatGenerator A) c lb :
  drawSimplifiedLabels_calls this c = Ok lb ->
  wellScoped lb /\ List.length (texts lb) = 21%nat.
Proof.
  unfold drawSimplifiedLabels_calls. intros E. injection E as <-.
  split; [| reflexivity].
  unfold wellScoped, keyLabels. cbn [app flat_map transforms fst snd].
  split; [| reflexivity].
  repeat (apply Forall_cons; [first [reflexivity | do 3 eexists; reflexivity] |]).
  apply Forall_nil.
Qed.

(** The other passes neither move the coordinate system nor write. *)
Lemma other_passes_plain fuel rand (this : MatGenerator A) c bg tk pr bd mk :
  drawBackground_calls rand this c = Ok bg ->
  drawTakeoffZoneScales_calls fuel this c = Ok tk ->
  drawPrecisionZoneScales_calls fuel this c = Ok pr ->
  drawBorder_calls this c = Ok bd ->
  drawArucoMarkers_calls this c = Ok mk ->
  Forall (fun c => plain c = true) bg /\
  Forall (fun c => plain c = true) tk /\
  Forall (fun c => plain c = true) pr /\
  Forall (fun c => plain c = true) bd /\
  Forall (fun c => plain c = true) mk.
Proof.
  intros Ebg Etk Epr Ebd Emk. repeat split.
  - unfold drawBackground_calls in Ebg. injection Ebg as <-. plain_calls.
  - unfold drawTakeoffZoneScales_calls, forNum in Etk.
    destruct (numRange fuel (lit 0.1) (lit 1.4) (lit 0.1)); [| discriminate].
    cbn [bind] in Etk. injection Etk as <-. plain_calls.
  - unfold drawPrecisionZoneScales_calls, forNum in Epr.
    destruct (numRange fuel (lit 1.4) (lit 2.8) (lit 0.01)); [| discriminate].
    destruct (numRange fuel (lit 2.9) (lit 3.0) (lit 0.1)); [| discriminate].
    cbn [bind] in Epr. injection Epr as <-. plain_calls.
  - unfold drawBorder_calls in Ebd. injection Ebd as <-. plain_calls.
  - revert Emk. unfold drawArucoMarkers_calls, indexed, drawArucoPair.
    cbn [List.length seq map combine forEach].
    repeat match goal with
    | |- context [createArucoMarker ?id ?s ?b] =>
        destruct (createArucoMarker id s b); cbn [bind]; try discriminate
    | |- context [drawImage ?image ?dx ?dy ?dw ?dh] =>
        destruct (drawImage_cases image dx dy dw dh) as [-> | ->];
        cbn [bind]; try discriminate
    end.
    intros E. injection E as <-. plain_calls.
Qed.
End ScopeFacts.

(** X10.  On the surface that [generate] returns (when [drawImage] can
    use the marker patches), every [save] has its
    [restore]: the transform is the identity again at the end, each of
    the 21 labels is written under one translation followed by one
    rotation of its own, and every tick, rectangle, line and marker image
    is drawn under the identity, so that its coordinates are surface
    pixels. *)
Theorem generate_wellScoped
    (fuel : nat) (rand : nat -> float) (this : MatGenerator float) :
  (141 <= fuel)%nat ->
  markersUsable this = true ->
  exists t c,
    generate fuel rand this = Ok t /\
    canvas t = Some c /\
    wellScoped (calls c) /\
    List.length (texts (calls c)) = 21%nat.
Proof.
  intros Hfuel U.
  destruct (generate_returns_binary64 fuel rand this Hfuel U)
    as (bg & tk & pr & lb & bd & mk & Ebg & Etk & Epr & Elb & Ebd & Emk & G).
  destruct (other_passes_plain fuel rand this _ bg tk pr bd mk
              Ebg Etk Epr Ebd Emk) as (Pbg & Ptk & Ppr & Pbd & Pmk).
  destruct (drawSimplifiedLabels_wellScoped this _ lb Elb) as [Wlb Tlb].
  eexists. eexists. split; [exact G |]. split; [reflexivity |].
  change (calls (call (initialCanvas this)
                      (bg ++ tk ++ pr ++ lb ++ bd ++ mk)))
    with (calls (initialCanvas this) ++ bg ++ tk ++ pr ++ lb ++ bd ++ mk).
  split.
  - apply wellScoped_app; [apply plain_wellScoped; repeat constructor |].
    apply wellScoped_app; [apply plain_wellScoped; exact Pbg |].
    apply wellScoped_app; [apply plain_wellScoped; exact Ptk |].
    apply wellScoped_app; [apply plain_wellScoped; exact Ppr |].
    apply wellScoped_app; [exact Wlb |].
    apply wellScoped_app; apply plain_wellScoped; assumption.
  - rewrite !texts_app.
    rewrite (plain_texts bg Pbg), (plain_texts tk Ptk), (plain_texts pr Ppr),
      (plain_texts bd Pbd), (plain_texts mk Pmk).
    rewrite app_nil_r. exact Tlb.
Qed.

Lemma generate_wellScoped_witness :
  exists t c,
    generate 141 (fun _ => 0.5%float) reference1200 = Ok t /\
    canvas t = Some c /\
    wellScoped (calls c).
Proof.
  destruct (generate_wellScoped 141 (fun _ => 0.5%float) reference1200
              (le_n 141) eq_refl) as (t & c & G & C & W & _).
  exists t, c. split; [exact G |]. split; [exact C | exact W].
Defined.


(** X12.  [generate] starts from a new surface every time: where it
    returns (where [drawImage] can use the marker patches), called on
    the generator it has returned, or on the same generator holding any
    other surface, it returns the same surface again (for the same
    random numbers), not a surface drawn over twice. *)
Theorem generate_again
    (fuel : nat) (rand : nat -> float) (this : MatGenerator float) :
  (141 <= fuel)%nat ->
  markersUsable this = true ->
  exists t c,
    generate fuel rand this = Ok t /\
    canvas t = Some c /\
    (exists t', generate fuel rand t = Ok t' /\ canvas t' = Some c) /\
    (forall c', exists t',
        generate fuel rand (withCanvas this c') = Ok t' /\ canvas t' = Some c).
Proof.
  intros Hfuel U.
  destruct (generate_returns_binary64 fuel rand this Hfuel U)
    as (bg & tk & pr & lb & bd & mk & _ & _ & _ & _ & _ & _ & G).
  eexists. eexists. split; [exact G |]. split; [reflexivity |].
  assert (Any : forall c',
            exists t', generate fuel rand (withCanvas this c') = Ok t' /\
                       canvas t'
                       = Some (call (initialCanvas this)
                                    (bg ++ tk ++ pr ++ lb ++ bd ++ mk))).
  { intros c'.
    destruct (generate_same_geometry this (withCanvas this c') fuel rand _
                ltac:(repeat split) G) as [t' [G' C']].
    exists t'. split; [exact G' | exact C']. }
  split; [| exact Any].
  exact (Any (call (initialCanvas this) (bg ++ tk ++ pr ++ lb ++ bd ++ mk))).
Qed.

Lemma generate_again_witness :
  exists t c t',
    generate 141 (fun _ => 0.5%float) reference1200 = Ok t /\
    canvas t = Some c /\
    generate 141 (fun _ => 0.5%float) t = Ok t' /\
    canvas t' = Some c.
Proof.
  destruct (generate_again 141 (fun _ => 0.5%float) reference1200 (le_n 141)
              eq_refl)
    as (t & c & G & C & (t' & G' & C') & _).
  exists t, c, t'. repeat split; assumption.
Defined.

(** ** Texture, mesh and export *)

(** [ensureCanvas] on a generator without surface is [generate]. *)
Lemma ensureCanvas_fresh
    (fuel : nat) (rand : nat -> float) (this : MatGenerator float) :
  (141 <= fuel)%nat ->
  markersUsable this = true ->
  canvas this = None ->
  exists bg tk pr lb bd mk,
    drawBackground_calls rand this (initialCanvas this) = Ok bg /\
    drawTakeoffZoneScales_calls fuel this (initialCanvas this) = Ok tk /\
    drawPrecisionZoneScales_calls fuel this (initialCanvas this) = Ok pr /\
    drawSimplifiedLabels_calls this (initialCanvas this) = Ok lb /\
    drawBorder_calls this (initialCanvas this) = Ok bd /\
    drawArucoMarkers_calls this (initialCanvas this) = Ok mk /\
    ensureCanvas fuel rand this
    = Ok (withCanvas this
            (call (initialCanvas this) (bg ++ tk ++ pr ++ lb ++ bd ++ mk))).
Proof.
  intros Hfuel U Hnone. unfold ensureCanvas. rewrite Hnone.
  exact (generate_returns_binary64 fuel rand this Hfuel U).
Qed.

(** X13.  Export draws at most once.  On a generator without surface
    whose marker patches [drawImage] can use,
    [getDataURL] generates the surface and encodes it, with PNG and
    quality 1 for the arguments left out; every later [getDataURL],
    [downloadImage] or [createTexture] on the generator it leaves behind
    uses that same surface and draws nothing, whatever [Math.random]
    would return then.  [downloadImage] always asks for PNG at quality 1
    and names the file [jump-mat.png] unless told otherwise. *)
Theorem getDataURL_generates_once
    (toDataURL : Canvas float -> string -> option float -> string)
    (fuel : nat) (rand rand' : nat -> float) (this : MatGenerator float)
    (format : option string) (quality : option float)
    (filename : option string) :
  (141 <= fuel)%nat ->
  markersUsable this = true ->
  canvas this = None ->
  exists t c,
    generate fuel rand this = Ok t /\
    canvas t = Some c /\
    getDataURL toDataURL fuel rand this format quality
    = Ok (t, toDataURL c (orElse format "image/png"%string)
                       (Some (orElse quality 1%float))) /\
    getDataURL toDataURL fuel rand' t format quality
    = Ok (t, toDataURL c (orElse format "image/png"%string)
                       (Some (orElse quality 1%float))) /\
    downloadImage toDataURL fuel rand' t filename
    = Ok (t, {| download := orElse filename "jump-mat.png"%string;
                href := toDataURL c "image/png"%string (Some 1%float) |}) /\
    createTexture fuel rand' t
    = Ok (t, {| image := Some c; colorSpace := SRGBColorSpace;
                anisotropy := 16; minFilter := LinearMipmapLinearFilter;
                magFilter := LinearFilter |}).
Proof.
  intros Hfuel U Hnone.
  destruct (generate_returns_binary64 fuel rand this Hfuel U)
    as (bg & tk & pr & lb & bd & mk & _ & _ & _ & _ & _ & _ & G).
  eexists. eexists. split; [exact G |]. split; [reflexivity |].
  unfold downloadImage, getDataURL, createTexture, ensureCanvas.
  rewrite Hnone, G. cbn [bind canvas withCanvas orElse].
  repeat split.
Qed.

Lemma getDataURL_generates_once_witness :
  exists t c,
    generate 141 (fun _ => 0.5%float) reference1200 = Ok t /\
    canvas t = Some c /\
    getDataURL (fun _ format _ => format) 141 (fun _ => 0.25%float) t
      (Some "image/jpeg"%string) None
    = Ok (t, "image/jpeg"%string).
Proof.
  destruct (getDataURL_generates_once (fun _ format _ => format) 141
              (fun _ => 0.5%float) (fun _ => 0.25%float) reference1200
              (Some "image/jpeg"%string) None None (le_n 141) eq_refl eq_refl)
    as (t & c & G & C & _ & U & _).
  exists t, c. split; [exact G |]. split; [exact C |]. exact U.
Defined.

(** ** The viewer's mat *)

(** X15.  The mat of a new viewer, in binary64: [createMat] builds a
    generator at the viewer's 1000 pixels per metre, leaves it holding a
    surface of 3300 by 900 pixels that is the texture of the one mesh
    added to the scene, with the eight markers read back as 0 and 4, 1 and
    5, 2 and 6, 3 and 7 along the mat; the plane is 3.3 m by 0.9 m and
    ends at 3 m, while its left end is -0.30000000000000004 m, one
    rounding away from -0.3.  The PNG button then downloads the encoding
    of that surface as [jump-mat-cv-optimized.png], drawing nothing. *)
Theorem viewer_mat (fuel : nat) (rand : nat -> float) :
  (141 <= fuel)%nat ->
  exists v g mesh c,
    createMat fuel rand new_JumpMatViewer = Ok v /\
    state v = initialState /\
    matGenerator v = Some g /\
    matMesh v = Some mesh /\
    scene v = [SceneAdd mesh] /\
    pixelsPerMeter g = 1000%float /\
    canvas g = Some c /\
    image (textureMap (material mesh)) = Some c /\
    (width c, height c) = (3300, 900) /\
    map (fun p => fst (fst p)) (placements (calls c))
    = [ Some 0; Some 4; Some 1; Some 5; Some 2; Some 6; Some 3; Some 7 ] /\
    geometry mesh = {| planeWidth := 3.3%float; planeHeight := 0.9%float |} /\
    meshLeft mesh = (-0.30000000000000004)%float /\
    meshRight mesh = 3%float /\
    (forall toDataURL rand',
        onDownloadPng toDataURL fuel rand' v
        = Ok (v, {| download := "jump-mat-cv-optimized.png"%string;
                    href := toDataURL c "image/png"%string
                              (Some 1%float) |})).
Proof.
  intros Hfuel.
  set (this := new_MatGenerator (viewerOptions (A := float) new_JumpMatViewer)).
  destruct (ensureCanvas_fresh fuel rand this Hfuel eq_refl eq_refl)
    as (bg & tk & pr & lb & bd & mk & Ebg & Etk & Epr & Elb & Ebd & Emk & G).
  unfold createMat, createMesh, createTexture. fold this. rewrite G.
  cbn [bind]. do 4 eexists.
  split; [reflexivity |]. split; [reflexivity |]. split; [reflexivity |].
  split; [reflexivity |]. split; [reflexivity |].
  split; [vm_compute; reflexivity |]. split; [reflexivity |].
  split; [reflexivity |]. split; [vm_compute; reflexivity |].
  split.
  { rewrite (surface_placements _ _ _ _ _ _ _ _ _ Ebg Etk Epr Elb Ebd).
    vm_compute in Emk. injection Emk as <-. vm_compute. reflexivity. }
  split; [vm_compute; reflexivity |].
  split; [vm_compute; reflexivity |].
  split; [vm_compute; reflexivity |].
  intros toDataURL rand'. reflexivity.
Qed.

Lemma viewer_mat_witness :
  exists v mesh,
    createMat 141 (fun _ => 0.5%float) new_JumpMatViewer = Ok v /\
    scene v = [SceneAdd mesh].
Proof.
  destruct (viewer_mat 141 (fun _ => 0.5%float) (le_n 141))
    as (v & g & mesh & c & E & _ & _ & _ & S & _).
  exists v, mesh. split; [exact E | exact S].
Defined.

(** X16.  The two switches of the viewer change nothing on the mat, at a
    scale of the viewer at which [drawImage] can use the marker patches: a
    click on the marker switch or on the fine-scale switch records the
    new position of the switch and regenerates the mat from the scale
    alone, so that, whichever way the switch points, the viewer ends with
    the generator and the mesh that [regenerateMat] would have given it,
    the scene sees the same removal and addition, and the texture still
    carries all eight markers. *)
Theorem switches_leave_mat
    (fuel : nat) (rand : nat -> float) (active : bool)
    (v : JumpMatViewer float) :
  (141 <= fuel)%nat ->
  markersUsable (new_MatGenerator (viewerOptions v)) = true ->
  exists g mesh c removed,
    createMesh fuel rand (new_MatGenerator (viewerOptions v)) = Ok (g, mesh) /\
    image (textureMap (material mesh)) = Some c /\
    List.length (placements (calls c)) = 8%nat /\
    regenerateMat fuel rand v
    = Ok {| state := state v; matGenerator := Some g; matMesh := Some mesh;
            scene := scene v ++ removed ++ [SceneAdd mesh] |} /\
    onToggleAruco fuel rand active v
    = Ok {| state := {| showAruco := active;
                        showFineScale := showFineScale (state v);
                        showGrid := showGrid (state v);
                        statePixelsPerMeter := statePixelsPerMeter (state v);
                        cameraAngle := cameraAngle (state v) |};
            matGenerator := Some g; matMesh := Some mesh;
            scene := scene v ++ removed ++ [SceneAdd mesh] |} /\
    onToggleFineScale fuel rand active v
    = Ok {| state := {| showAruco := showAruco (state v);
                        showFineScale := active;
                        showGrid := showGrid (state v);
                        statePixelsPerMeter := statePixelsPerMeter (state v);
                        cameraAngle := cameraAngle (state v) |};
            matGenerator := Some g; matMesh := Some mesh;
            scene := scene v ++ removed ++ [SceneAdd mesh] |}.
Proof.
  intros Hfuel U.
  set (this := new_MatGenerator (viewerOptions v)) in *.
  destruct (ensureCanvas_fresh fuel rand this Hfuel U eq_refl)
    as (bg & tk & pr & lb & bd & mk & Ebg & Etk & Epr & Elb & Ebd & Emk & G).
  assert (M : exists g mesh,
             createMesh fuel rand this = Ok (g, mesh) /\
             image (textureMap (material mesh))
             = Some (call (initialCanvas this)
                          (bg ++ tk ++ pr ++ lb ++ bd ++ mk))).
  { unfold createMesh, createTexture. rewrite G. cbn [bind].
    eexists. eexists. split; reflexivity. }
  destruct M as (g & mesh & M & I).
  exists g, mesh. eexists. eexists.
  split; [exact M |]. split; [exact I |].
  split.
  { rewrite (surface_placements _ _ _ _ _ _ _ _ _ Ebg Etk Epr Elb Ebd).
    exact (drawArucoMarkers_placements this _ mk Emk). }
  unfold onToggleAruco, onToggleFineScale, regenerateMat.
  cbn [state matMesh scene statePixelsPerMeter viewerOptions].
  change (new_MatGenerator _) with this.
  rewrite M. cbn [bind]. repeat split.
Qed.

Lemma switches_leave_mat_witness :
  exists v1 mesh c,
    onToggleAruco 141 (fun _ => 0.5%float) false new_JumpMatViewer = Ok v1 /\
    showAruco (state v1) = false /\
    matMesh v1 = Some mesh /\
    image (textureMap (material mesh)) = Some c /\
    List.length (placements (calls c)) = 8%nat.
Proof.
  assert (U : markersUsable
                (new_MatGenerator (viewerOptions (A := float) new_JumpMatViewer))
              = true) by (vm_compute; reflexivity).
  destruct (switches_leave_mat 141 (fun _ => 0.5%float) false
              new_JumpMatViewer (le_n 141) U)
    as (g & mesh & c & removed & _ & I & P & _ & E & _).
  eexists. exists mesh, c. split; [exact E |].
  split; [reflexivity |]. split; [reflexivity |].
  split; [exact I | exact P].
Defined.

(** ** When [generate] fails *)


